(** * Splitting the generic field types of the tables schema

    A verification development for [scripts/split-generic-fields.py]:
    the script loads a JSON Schema document, synthesizes nine concrete
    field-type schemas (five of the text family, four of the number
    family) and splices them into the union found at
    [items.properties.fields.items.anyOf], in place of its first two
    members.

    The embedding follows the Python source function by function.
    Python values are modelled by the type [json]; a Python [dict] is an
    association list in insertion order; exceptions are a [result]; the
    file on disk and standard output are threaded through a small state
    and error monad. *)

From stdpp Require Import base list strings gmap pretty.
From Stdlib Require Import ZArith Ascii.

Open Scope string_scope.
Open Scope list_scope.

#[local] Set Warnings "-register-all,-clear-no-such-hyp".

(** ** Python values *)

(** The values that [json.load] produces and [json.dump] accepts.  An
    integer is a [JInt]; a float is carried around by its 64 bits and is
    never inspected by the script.  A string is its UTF-8 byte sequence.
    A [dict] keeps its keys in insertion order. *)
Inductive json : Type :=
| JNull
| JBool (b : bool)
| JInt (n : Z)
| JFloat (bits : Z)
| JStr (s : string)
| JArr (items : list json)
| JObj (members : list (string * json)).

Abbreviation dict := (list (string * json)).

(** The quote character, for the one literal of the source that contains it. *)
Definition dq : string := String (ascii_of_nat 34) EmptyString.

(** The line feed of the two [print("\n...")] calls. *)
Definition nl : string := String (ascii_of_nat 10) EmptyString.

(** ** Exceptions *)

Inductive exn : Type :=
| FileNotFoundError
| JSONDecodeError
| KeyError (key : string)
| TypeError.

Inductive result (A : Type) : Type :=
| Ok (a : A)
| Raise (e : exn).
Arguments Ok {A} a.
Arguments Raise {A} e.

Definition rbind {A B} (r : result A) (k : A -> result B) : result B :=
  match r with
  | Ok a => k a
  | Raise e => Raise e
  end.

(** ** Dictionaries in insertion order *)

Module Dict.

(** [d.get(k)]: the value stored under [k], if any. *)
Fixpoint get (k : string) (d : dict) : option json :=
  match d with
  | [] => None
  | (k', v) :: rest => if String.eqb k k' then Some v else get k rest
  end.

(** [d[k] = v]: an existing key keeps its position and takes the new
    value; a new key goes to the end. *)
Fixpoint set (k : string) (v : json) (d : dict) : dict :=
  match d with
  | [] => [(k, v)]
  | (k', v') :: rest =>
      if String.eqb k k' then (k', v) :: rest else (k', v') :: set k v rest
  end.

(** [d.update(other)]: [d[k] = v] for each item of [other], in order. *)
Definition update (d other : dict) : dict :=
  fold_left (fun acc kv => set (fst kv) (snd kv) acc) other d.

(** [list(d)]: the keys, in insertion order. *)
Definition keys (d : dict) : list string := map fst d.

(** A Python dict holds each key once. *)
Definition wf (d : dict) : Prop := NoDup (keys d).

(** The keys that an update brings and the dict did not have, in the
    order of their first appearance. *)
Fixpoint fresh_keys (seen : list string) (other : dict) : list string :=
  match other with
  | [] => []
  | (k, _) :: rest =>
      if decide (k ∈ seen) then fresh_keys seen rest
      else k :: fresh_keys (seen ++ [k]) rest
  end.

End Dict.

(** [x[k]] for a string key [k]. *)
Definition subscript (x : json) (k : string) : result json :=
  match x with
  | JObj d =>
      match Dict.get k d with
      | Some v => Ok v
      | None => Raise (KeyError k)
      end
  | _ => Raise TypeError
  end.

(** [x[k1][k2]...[kn]], evaluated left to right. *)
Fixpoint subscript_path (x : json) (path : list string) : result json :=
  match path with
  | [] => Ok x
  | k :: rest => rbind (subscript x k) (fun y => subscript_path y rest)
  end.

(** [x[k1]...[kn][k] = v].  The document that [json.load] builds is a
    tree without sharing, so mutating the innermost dict in place is the
    same as rebuilding the spine above it; every dict on the spine keeps
    its keys where they are. *)
Fixpoint assign_path (x : json) (path : list string) (k : string) (v : json)
  : result json :=
  match path with
  | [] =>
      match x with
      | JObj d => Ok (JObj (Dict.set k v d))
      | _ => Raise TypeError
      end
  | p :: rest =>
      rbind (subscript x p) (fun y =>
      rbind (assign_path y rest k v) (fun y' =>
      match x with
      | JObj d => Ok (JObj (Dict.set p y' d))
      | _ => Raise TypeError
      end))
  end.

(** [bool(additional_props)] for [additional_props: dict = None]. *)
Definition truthy (additional_props : option dict) : bool :=
  match additional_props with
  | None => false
  | Some [] => false
  | Some (_ :: _) => true
  end.

(** [d[k].update(other)] on a dict [d]: the member under [k] is updated
    in place.  The script only calls it on a literal that has the
    member. *)
Definition update_member (d : dict) (k : string) (other : dict) : dict :=
  match Dict.get k d with
  | Some (JObj p) => Dict.set k (JObj (Dict.update p other)) d
  | _ => d
  end.

(** ** Iteration *)

(** A byte [10xxxxxx] continues a UTF-8 code point. *)
Definition is_continuation (a : ascii) : bool :=
  let n := nat_of_ascii a in (128 <=? n)%nat && (n <? 192)%nat.

(** The code points of a string, each as a one-character string. *)
Fixpoint code_points (s : string) : list string :=
  match s with
  | EmptyString => []
  | String a r =>
      let rest := code_points r in
      match r, rest with
      | String b _, h :: t =>
          if is_continuation b then String a h :: t
          else String a EmptyString :: rest
      | _, _ => String a EmptyString :: rest
      end
  end.

(** What a [for] loop over a value visits: the items of a list, the
    keys of a dict, the characters of a string; the other values are not
    iterable. *)
Definition iterate (x : json) : result (list json) :=
  match x with
  | JArr items => Ok items
  | JObj d => Ok (map JStr (Dict.keys d))
  | JStr s => Ok (map JStr (code_points s))
  | _ => Raise TypeError
  end.

(** [enumerate(xs)] *)
Definition enumerate {A} (xs : list A) : list (nat * A) :=
  imap (fun i x => (i, x)) xs.

(** ** The two synthesizers *)

Definition create_text_field (field_type title description : string)
    (business_rules user_stories : list json) : json :=
  JObj [
    ("title", JStr title);
    ("description", JStr description);
    ("type", JStr "object");
    ("properties", JObj [
        ("id", JObj [
            ("$ref", JStr "../common/definitions.schema.json#/definitions/id");
            ("x-user-stories", JArr [
                JStr "GIVEN a new entity is created WHEN the system assigns an ID THEN it should be unique within the parent collection";
                JStr "GIVEN an entity exists WHEN attempting to modify its ID THEN the system should prevent changes (read-only constraint)";
                JStr "GIVEN a client requests an entity by ID WHEN the ID is valid THEN the entity should be retrieved successfully" ]) ]);
        ("name", JObj [
            ("$ref", JStr "../common/definitions.schema.json#/definitions/name");
            ("x-user-stories", JArr [
                JStr "GIVEN new field is created WHEN saving configuration THEN field name should follow database naming conventions";
                JStr "GIVEN field with duplicate name WHEN validating table schema THEN error should prevent conflicts";
                JStr "GIVEN field name is set WHEN querying data THEN field should be accessible by its name" ]) ]);
        ("required", JObj [
            ("type", JStr "boolean");
            ("default", JBool false);
            ("x-business-rules", JArr [
                JStr "Defaults to false when not specified, providing sensible fallback behavior without requiring explicit configuration" ]);
            ("x-user-stories", JArr [
                JStr "GIVEN required is true WHEN processing entity THEN corresponding behavior should be enforced";
                JStr "GIVEN required is false (default: False) WHEN processing entity THEN corresponding behavior should not be enforced";
                JStr "GIVEN configuration with required WHEN validating settings THEN boolean value should be accepted" ]) ]);
        ("unique", JObj [
            ("type", JStr "boolean");
            ("default", JBool false);
            ("description", JStr "Whether this field must contain unique values across all rows");
            ("x-business-rules", JArr [
                JStr "Uniqueness constraint prevents conflicts and ensures each unique can be unambiguously referenced";
                JStr "Defaults to false when not specified, providing sensible fallback behavior without requiring explicit configuration" ]);
            ("x-user-stories", JArr [
                JStr "GIVEN unique is true WHEN processing entity THEN corresponding behavior should be enforced";
                JStr "GIVEN unique is false (default: False) WHEN processing entity THEN corresponding behavior should not be enforced";
                JStr "GIVEN configuration with unique WHEN validating settings THEN boolean value should be accepted" ]) ]);
        ("indexed", JObj [
            ("type", JStr "boolean");
            ("default", JBool false);
            ("description", JStr "Whether to create a database index on this field for faster queries");
            ("x-business-rules", JArr [
                JStr "Defaults to false when not specified, providing sensible fallback behavior without requiring explicit configuration" ]);
            ("x-user-stories", JArr [
                JStr "GIVEN indexed is true WHEN processing entity THEN corresponding behavior should be enforced";
                JStr "GIVEN indexed is false (default: False) WHEN processing entity THEN corresponding behavior should not be enforced";
                JStr "GIVEN configuration with indexed WHEN validating settings THEN boolean value should be accepted" ]) ]);
        ("type", JObj [
            ("const", JStr field_type);
            ("x-business-rules", JArr [
                JStr ("Constant value '" +:+ field_type +:+ "' ensures type safety and enables discriminated unions for field type validation") ]);
            ("x-user-stories", JArr [
                JStr ("GIVEN a " +:+ title +:+ " is configured WHEN validating schema THEN type must be '" +:+ field_type +:+ "'");
                JStr ("GIVEN type is set to '" +:+ field_type +:+ "' WHEN processing field THEN it should be treated as a " +:+ title) ]) ]);
        ("default", JObj [
            ("type", JStr "string");
            ("x-user-stories", JArr [
                JStr "GIVEN user provides default WHEN validating input THEN string value should be accepted";
                JStr "GIVEN default is empty string WHEN validating input THEN behavior should follow optional/required rules" ]) ]) ]);
    ("required", JArr [
        JStr "id";
        JStr "name";
        JStr "type" ]);
    ("additionalProperties", JBool false);
    ("x-user-stories", JArr user_stories);
    ("x-business-rules", JArr business_rules) ].

Definition create_number_field (field_type title description : string)
    (business_rules user_stories : list json)
    (additional_props : option dict) : json :=
  let field_schema : dict := [
      ("title", JStr title);
      ("description", JStr description);
      ("type", JStr "object");
      ("properties", JObj [
          ("id", JObj [
              ("$ref", JStr "../common/definitions.schema.json#/definitions/id");
              ("x-user-stories", JArr [
                  JStr "GIVEN a new entity is created WHEN the system assigns an ID THEN it should be unique within the parent collection";
                  JStr "GIVEN an entity exists WHEN attempting to modify its ID THEN the system should prevent changes (read-only constraint)";
                  JStr "GIVEN a client requests an entity by ID WHEN the ID is valid THEN the entity should be retrieved successfully" ]) ]);
          ("name", JObj [
              ("$ref", JStr "../common/definitions.schema.json#/definitions/name");
              ("x-user-stories", JArr [
                  JStr "GIVEN new field is created WHEN saving configuration THEN field name should follow database naming conventions";
                  JStr "GIVEN field with duplicate name WHEN validating table schema THEN error should prevent conflicts";
                  JStr "GIVEN field name is set WHEN querying data THEN field should be accessible by its name" ]) ]);
          ("required", JObj [
              ("type", JStr "boolean");
              ("default", JBool false);
              ("x-business-rules", JArr [
                  JStr "Defaults to false when not specified, providing sensible fallback behavior without requiring explicit configuration" ]);
              ("x-user-stories", JArr [
                  JStr "GIVEN required is true WHEN processing entity THEN corresponding behavior should be enforced";
                  JStr "GIVEN required is false (default: False) WHEN processing entity THEN corresponding behavior should not be enforced";
                  JStr "GIVEN configuration with required WHEN validating settings THEN boolean value should be accepted" ]) ]);
          ("unique", JObj [
              ("type", JStr "boolean");
              ("default", JBool false);
              ("description", JStr "Whether this field must contain unique values across all rows");
              ("x-business-rules", JArr [
                  JStr "Uniqueness constraint prevents conflicts and ensures each unique can be unambiguously referenced";
                  JStr "Defaults to false when not specified, providing sensible fallback behavior without requiring explicit configuration" ]);
              ("x-user-stories", JArr [
                  JStr "GIVEN unique is true WHEN processing entity THEN corresponding behavior should be enforced";
                  JStr "GIVEN unique is false (default: False) WHEN processing entity THEN corresponding behavior should not be enforced";
                  JStr "GIVEN configuration with unique WHEN validating settings THEN boolean value should be accepted" ]) ]);
          ("indexed", JObj [
              ("type", JStr "boolean");
              ("default", JBool false);
              ("description", JStr "Whether to create a database index on this field for faster queries");
              ("x-business-rules", JArr [
                  JStr "Defaults to false when not specified, providing sensible fallback behavior without requiring explicit configuration" ]);
              ("x-user-stories", JArr [
                  JStr "GIVEN indexed is true WHEN processing entity THEN corresponding behavior should be enforced";
                  JStr "GIVEN indexed is false (default: False) WHEN processing entity THEN corresponding behavior should not be enforced";
                  JStr "GIVEN configuration with indexed WHEN validating settings THEN boolean value should be accepted" ]) ]);
          ("type", JObj [
              ("const", JStr field_type);
              ("x-business-rules", JArr [
                  JStr ("Constant value '" +:+ field_type +:+ "' ensures type safety and enables discriminated unions for field type validation") ]);
              ("x-user-stories", JArr [
                  JStr ("GIVEN a " +:+ title +:+ " is configured WHEN validating schema THEN type must be '" +:+ field_type +:+ "'");
                  JStr ("GIVEN type is set to '" +:+ field_type +:+ "' WHEN processing field THEN it should be treated as a " +:+ title) ]) ]);
          ("min", JObj [
              ("type", JStr "number");
              ("description", JStr "Minimum value");
              ("x-user-stories", JArr [
                  JStr "GIVEN user provides min WHEN validating input THEN numeric value should be accepted";
                  JStr "GIVEN user provides non-numeric min WHEN validating input THEN error should require number" ]) ]);
          ("max", JObj [
              ("type", JStr "number");
              ("description", JStr "Maximum value");
              ("x-user-stories", JArr [
                  JStr "GIVEN user provides max WHEN validating input THEN numeric value should be accepted";
                  JStr "GIVEN user provides non-numeric max WHEN validating input THEN error should require number" ]) ]);
          ("default", JObj [
              ("type", JStr "number");
              ("x-user-stories", JArr [
                  JStr "GIVEN user provides default WHEN validating input THEN numeric value should be accepted";
                  JStr "GIVEN user provides non-numeric default WHEN validating input THEN error should require number" ]) ]) ]);
      ("required", JArr [
          JStr "id";
          JStr "name";
          JStr "type" ]);
      ("additionalProperties", JBool false);
      ("x-business-rules", JArr business_rules) ] in
  (* Add field-specific properties *)
  let field_schema :=
    if truthy additional_props
    then update_member field_schema "properties" (default [] additional_props)
    else field_schema in
  JObj field_schema.

(** ** The catalog *)

(** One entry of [text_fields] or [number_fields].  The entries of
    [text_fields] have no [additional_props] key, and [main] reads that
    key with [.get], which gives [None] where it is missing. *)
Record field_def : Type := {
  fd_type : string;
  fd_title : string;
  fd_description : string;
  fd_business_rules : list json;
  fd_user_stories : list json;
  fd_additional_props : option dict
}.

(** Define specific text field types *)
Definition text_fields : list field_def :=
  [
    {|
       fd_type := "single-line-text";
       fd_title := "Single Line Text Field";
       fd_description := "Short text input limited to a single line. Ideal for names, titles, labels, and brief identifiers. Text is stored as-is without formatting. Required flag makes the field mandatory. Unique constraint ensures no duplicate values across records. Indexing improves search and filter performance on this field.";
       fd_business_rules := [
          JStr "Single-line constraint prevents multi-line input, ensuring consistent formatting and UI display";
          JStr "Text is stored without formatting, preserving raw input for maximum flexibility" ];
       fd_user_stories := [
          JStr "GIVEN I create a single-line text field WHEN I add a record THEN it should accept text without line breaks";
          JStr "GIVEN I create a single-line text field with unique constraint WHEN I add duplicate text THEN it should reject the input";
          JStr "GIVEN I create a required single-line text field WHEN I submit without value THEN it should show validation error" ];
       fd_additional_props := None |};
    {|
       fd_type := "long-text";
       fd_title := "Long Text Field";
       fd_description := "Multi-line text input for paragraphs, descriptions, notes, and comments. Supports line breaks and longer content. Text is stored as-is without rich formatting (no bold, italics, etc.). Required flag makes the field mandatory. Indexing improves search performance but may be slower for very long content.";
       fd_business_rules := [
          JStr "Multi-line support allows paragraphs and structured content with line breaks";
          JStr "Text is stored without rich formatting (HTML, Markdown) to prevent injection attacks and maintain data portability" ];
       fd_user_stories := [
          JStr "GIVEN I create a long text field WHEN I add a record THEN it should accept multi-line text with line breaks";
          JStr "GIVEN I create a long text field WHEN I paste formatted text THEN it should strip formatting and preserve plain text";
          JStr "GIVEN I create a required long text field WHEN I submit without value THEN it should show validation error" ];
       fd_additional_props := None |};
    {|
       fd_type := "phone-number";
       fd_title := "Phone Number Field";
       fd_description := "Text field optimized for phone numbers with automatic formatting based on detected country code. Stores the raw phone number value without validation to support international formats. Display formatting helps readability but doesn't enforce strict patterns. Required flag makes the field mandatory. Unique constraint ensures no duplicate phone numbers.";
       fd_business_rules := [
          JStr "Phone numbers are stored as raw text to support diverse international formats without strict validation";
          JStr "Automatic formatting improves readability but doesn't restrict input, allowing flexibility for edge cases" ];
       fd_user_stories := [
          JStr "GIVEN I create a phone number field WHEN I enter a phone number THEN it should format it automatically for display";
          JStr "GIVEN I create a phone number field WHEN I enter an international number THEN it should accept it without validation errors";
          JStr "GIVEN I create a phone number field with unique constraint WHEN I enter a duplicate number THEN it should reject the input" ];
       fd_additional_props := None |};
    {|
       fd_type := "email";
       fd_title := "Email Field";
       fd_description := "Text field with email format validation (username@domain). Validates email structure (presence of @ symbol and domain) without sending test emails. Stores email as lowercase for consistent lookups. Required flag makes the field mandatory. Unique constraint ensures no duplicate emails. Indexing enables fast email-based queries.";
       fd_business_rules := [
          JStr "Email validation checks structure (@ symbol, domain) without verifying deliverability to balance usability and data quality";
          JStr "Emails are stored as lowercase to prevent duplicate entries differing only by case (Email@example.com vs email@example.com)" ];
       fd_user_stories := [
          JStr "GIVEN I create an email field WHEN I enter a valid email THEN it should accept the input";
          JStr "GIVEN I create an email field WHEN I enter text without @ symbol THEN it should show validation error";
          JStr "GIVEN I create an email field with unique constraint WHEN I enter a duplicate email THEN it should reject the input regardless of case" ];
       fd_additional_props := None |};
    {|
       fd_type := "url";
       fd_title := "URL Field";
       fd_description := "Text field for web links with URL format validation (http:// or https://). Validates URL structure and protocol without checking if the link is reachable. Stores full URL including protocol. Display shows clickable link in the UI. Required flag makes the field mandatory. Unique constraint ensures no duplicate URLs.";
       fd_business_rules := [
          JStr "URL validation checks structure and protocol (http/https) without verifying link reachability to avoid external dependencies";
          JStr "Full URL with protocol is stored to ensure links work correctly when clicked (http://example.com, not example.com)" ];
       fd_user_stories := [
          JStr "GIVEN I create a URL field WHEN I enter a valid URL with http:// or https:// THEN it should accept the input";
          JStr "GIVEN I create a URL field WHEN I enter text without protocol THEN it should show validation error";
          JStr "GIVEN I create a URL field WHEN I view the record THEN the URL should display as a clickable link" ];
       fd_additional_props := None |} ].

(** Define specific number field types *)
Definition number_fields : list field_def :=
  [
    {|
       fd_type := "integer";
       fd_title := "Integer Field";
       fd_description := "Whole number field without decimal places. Ideal for counts, IDs, quantities, ages, and rankings. Supports min/max constraints for range validation. Required flag makes the field mandatory. Unique constraint ensures no duplicate values. Indexing enables efficient numerical sorting and filtering.";
       fd_business_rules := [
          JStr "Integer constraint ensures only whole numbers are accepted, preventing decimal input";
          JStr "Min/max constraints provide range validation to keep values within business-defined bounds" ];
       fd_user_stories := [
          JStr "GIVEN I create an integer field WHEN I enter a whole number THEN it should accept the input";
          JStr "GIVEN I create an integer field WHEN I enter a decimal number THEN it should reject the input";
          JStr "GIVEN I create an integer field with min=0 and max=100 WHEN I enter 150 THEN it should show validation error" ];
       fd_additional_props := Some [] |};
    {|
       fd_type := "decimal";
       fd_title := "Decimal Field";
       fd_description := "Floating-point number field with configurable decimal precision (0-10 places). Ideal for measurements, scores, ratings, and scientific data. Precision determines how many decimal places are stored and displayed (default: 2). Supports min/max constraints for range validation. Required flag makes the field mandatory.";
       fd_business_rules := [
          JStr "Precision (0-10 decimal places) controls rounding and storage, preventing floating-point errors";
          JStr "Default precision of 2 decimal places suits most use cases (prices, percentages) without requiring configuration" ];
       fd_user_stories := [
          JStr "GIVEN I create a decimal field with precision=2 WHEN I enter 3.14159 THEN it should round to 3.14";
          JStr "GIVEN I create a decimal field WHEN I enter a whole number THEN it should accept it and display with decimal places";
          JStr "GIVEN I create a decimal field with min=0.0 and max=1.0 WHEN I enter 1.5 THEN it should show validation error" ];
       fd_additional_props := Some ([
          ("precision", JObj [
              ("type", JStr "integer");
              ("description", JStr "Number of decimal places");
              ("minimum", JInt 0);
              ("maximum", JInt 10);
              ("default", JInt 2);
              ("x-business-rules", JArr [
                  JStr "Numeric range (0-10) prevents overflow errors and ensures values stay within valid business bounds";
                  JStr "Defaults to 2 when not specified, providing sensible fallback behavior without requiring explicit configuration" ]);
              ("x-user-stories", JArr [
                  JStr "GIVEN user provides precision between 0 and 10 WHEN validating input THEN value should be accepted";
                  JStr "GIVEN user provides precision below 0 WHEN validating input THEN error should enforce minimum value";
                  JStr "GIVEN user provides precision above 10 WHEN validating input THEN error should enforce maximum value" ]) ]) ]) |};
    {|
       fd_type := "currency";
       fd_title := "Currency Field";
       fd_description := "Monetary value field with currency code (USD, EUR, GBP, etc.). Stores numeric value with 2 decimal places for cents/pence. Currency code determines display format and symbol ($, €, £). Supports min/max constraints for range validation. Required flag makes the field mandatory. Indexing enables efficient sorting by monetary value.";
       fd_business_rules := [
          JStr "Currency code is stored separately from value to support multi-currency applications and accurate conversions";
          JStr "Fixed 2 decimal places match standard accounting practices for monetary values (cents/pence precision)";
          JStr "Default currency of USD provides sensible fallback for applications without multi-currency needs" ];
       fd_user_stories := [
          JStr "GIVEN I create a currency field with USD WHEN I enter 99.99 THEN it should display as $99.99";
          JStr "GIVEN I create a currency field with EUR WHEN I enter 99.99 THEN it should display as €99.99";
          JStr "GIVEN I create a currency field WHEN I enter 99.999 THEN it should round to 2 decimal places (99.99)" ];
       fd_additional_props := Some ([
          ("currency", JObj [
              ("type", JStr "string");
              ("description", JStr "Currency code (ISO 4217)");
              ("default", JStr "USD");
              ("examples", JArr [
                  JStr "USD";
                  JStr "EUR";
                  JStr "GBP";
                  JStr "JPY";
                  JStr "CAD" ]);
              ("x-business-rules", JArr [
                  JStr ("Defaults to " +:+ dq +:+ "USD" +:+ dq +:+ " when not specified, providing sensible fallback behavior without requiring explicit configuration");
                  JStr "Currency code should follow ISO 4217 standard for international compatibility" ]);
              ("x-user-stories", JArr [
                  JStr "GIVEN user provides currency WHEN validating input THEN string value should be accepted";
                  JStr "GIVEN currency is empty string WHEN validating input THEN default to USD" ]) ]) ]) |};
    {|
       fd_type := "percentage";
       fd_title := "Percentage Field";
       fd_description := "Ratio field displayed as percentage (0-100%). Stores value as decimal (0.0-1.0 or 0-100 depending on configuration). Display adds % symbol automatically. Supports min/max constraints for range validation (typically 0-100). Required flag makes the field mandatory. Useful for completion rates, discounts, and probability values.";
       fd_business_rules := [
          JStr "Percentage values are displayed with % symbol but stored as numbers to enable mathematical operations";
          JStr "Min/max constraints typically enforce 0-100 range but can be configured for specific use cases (e.g., growth rates >100%)" ];
       fd_user_stories := [
          JStr "GIVEN I create a percentage field WHEN I enter 75 THEN it should display as 75%";
          JStr "GIVEN I create a percentage field with max=100 WHEN I enter 150 THEN it should show validation error";
          JStr "GIVEN I create a percentage field WHEN I enter a decimal like 33.33 THEN it should accept it and display as 33.33%" ];
       fd_additional_props := Some [] |} ].

(** ** The file and standard output *)

(** What the script finds at [schema_path]: nothing, text that is not
    JSON, or a document.  The file is taken to be writable. *)
Inductive file : Type :=
| Missing
| Unparseable
| Holds (doc : json).

Record world : Type := World {
  disk : file;
  stdout : list string
}.

(** Computations that read and write the world and may raise. *)
Definition M (A : Type) : Type := world -> result A * world.

#[export] Instance M_ret : MRet M := fun A a w => (Ok a, w).

#[export] Instance M_bind : MBind M := fun A B k m w =>
  match m w with
  | (Ok a, w') => k a w'
  | (Raise e, w') => (Raise e, w')
  end.

Definition lift {A} (r : result A) : M A := fun w => (r, w).

(** [with open(schema_path, 'r') as f: schema = json.load(f)] *)
Definition load_schema : M json := fun w =>
  match disk w with
  | Missing => (Raise FileNotFoundError, w)
  | Unparseable => (Raise JSONDecodeError, w)
  | Holds doc => (Ok doc, w)
  end.

(** [with open(schema_path, 'w') as f: json.dump(schema, f, indent=2)] *)
Definition dump_schema (schema : json) : M unit := fun w =>
  (Ok tt, {| disk := Holds schema; stdout := stdout w |}).

Definition print (line : string) : M unit := fun w =>
  (Ok tt, {| disk := disk w; stdout := stdout w ++ [line] |}).

(** [for field in fields: print(f"  - {field['title']} (type: {field['type']})")] *)
Definition print_titles (fields : list field_def) : M unit :=
  fold_left (fun (m : M unit) field =>
               _ ← m;
               print ("  - " +:+ fd_title field +:+ " (type: " +:+ fd_type field +:+ ")"))
            fields (mret tt).

(** ** The script *)

Definition main : M unit :=
  (* Read the original schema *)
  schema ← load_schema;
  (* Create new field definitions *)
  let new_any_of : list json := [] in
  (* Add specific text fields *)
  let new_any_of :=
    fold_left (fun acc field_def =>
                 acc ++ [create_text_field
                           (fd_type field_def)
                           (fd_title field_def)
                           (fd_description field_def)
                           (fd_business_rules field_def)
                           (fd_user_stories field_def)])
              text_fields new_any_of in
  (* Add specific number fields *)
  let new_any_of :=
    fold_left (fun acc field_def =>
                 acc ++ [create_number_field
                           (fd_type field_def)
                           (fd_title field_def)
                           (fd_description field_def)
                           (fd_business_rules field_def)
                           (fd_user_stories field_def)
                           (fd_additional_props field_def)])
              number_fields new_any_of in
  (* Keep all other field types from the original schema *)
  original_any_of ← lift (subscript_path schema
                            ["items"; "properties"; "fields"; "items"; "anyOf"]);
  (* Skip Text Field (index 0) and Number Field (index 1), keep the rest *)
  visited ← lift (iterate original_any_of);
  let new_any_of :=
    fold_left (fun acc (entry : nat * json) =>
                 let (i, field) := entry in
                 if (2 <=? i)%nat then acc ++ [field] else acc)
              (enumerate visited) new_any_of in
  (* Replace the anyOf array *)
  schema ← lift (assign_path schema
                   ["items"; "properties"; "fields"; "items"] "anyOf"
                   (JArr new_any_of));
  (* Write the modified schema *)
  _ ← dump_schema schema;
  _ ← print ("✓ Successfully split generic fields into "
             +:+ pretty (length text_fields) +:+ " text field types and "
             +:+ pretty (length number_fields) +:+ " number field types");
  _ ← print ("✓ Total field types in schema: " +:+ pretty (length new_any_of));
  _ ← print (nl +:+ "Text field types created:");
  _ ← print_titles text_fields;
  _ ← print (nl +:+ "Number field types created:");
  print_titles number_fields.

(** The status the interpreter exits with: an exception that nobody
    catches ends the process with status 1. *)
Definition exit_status {A} (r : result A) : Z :=
  match r with
  | Ok _ => 0
  | Raise _ => 1
  end.


(** ** Vocabulary of the statements *)

(** The member of an object under a key. *)
Definition member (k : string) (x : json) : option json :=
  match x with
  | JObj d => Dict.get k d
  | _ => None
  end.

(** The [properties] mapping of a synthesized schema. *)
Definition properties_of (schema : json) : option dict :=
  match member "properties" schema with
  | Some (JObj p) => Some p
  | _ => None
  end.

(** One declared property of a synthesized schema. *)
Definition property (k : string) (schema : json) : option json :=
  p ← properties_of schema; Dict.get k p.

(** The constant of the discriminator of a synthesized schema. *)
Definition type_const (schema : json) : option json :=
  property "type" schema ≫= member "const".

(** The schema that [main] synthesizes for an entry of [text_fields]. *)
Definition text_schema (field_def : field_def) : json :=
  create_text_field (fd_type field_def) (fd_title field_def)
    (fd_description field_def) (fd_business_rules field_def)
    (fd_user_stories field_def).

(** The schema that [main] synthesizes for an entry of [number_fields]. *)
Definition number_schema (field_def : field_def) : json :=
  create_number_field (fd_type field_def) (fd_title field_def)
    (fd_description field_def) (fd_business_rules field_def)
    (fd_user_stories field_def) (fd_additional_props field_def).

(** The nine synthesized schemas, in catalog order. *)
Definition synthesized : list json :=
  map text_schema text_fields ++ map number_schema number_fields.

(** The common template of a family: the properties that the family's
    synthesizer declares when the descriptor brings no extras. *)
Definition text_template (field_type title : string) : dict :=
  default [] (properties_of (create_text_field field_type title "" [] [])).

Definition number_template (field_type title : string) : dict :=
  default [] (properties_of (create_number_field field_type title "" [] [] None)).

(** The extras of a descriptor, none when the mapping is absent. *)
Definition extras (additional_props : option dict) : dict :=
  default [] additional_props.

(** Where the union lives in the document. *)
Definition union_path : list string :=
  ["items"; "properties"; "fields"; "items"; "anyOf"].

(** The keys of the object found at a path. *)
Definition keys_at (doc : json) (path : list string) : option (list string) :=
  match subscript_path doc path with
  | Ok (JObj d) => Some (Dict.keys d)
  | _ => None
  end.

(** Two paths part ways: they agree up to some point and then take
    different keys. *)
Inductive diverges : list string -> list string -> Prop :=
| diverges_here k k' r r' : k <> k' -> diverges (k :: r) (k' :: r')
| diverges_later k r r' : diverges r r' -> diverges (k :: r) (k :: r').

(** The union of the document that a run leaves on disk. *)
Definition union_on (w : world) : option (list json) :=
  match disk w with
  | Holds doc =>
      match subscript_path doc union_path with
      | Ok (JArr u) => Some u
      | _ => None
      end
  | _ => None
  end.

(** A computation that only prints: it returns, and the disk is as
    before. *)
Definition quiet (m : M unit) : Prop :=
  forall w, exists out, m w = (Ok tt, {| disk := disk w; stdout := out |}).

(** A document that is nothing but the spine down to a union with the
    given members. *)
Definition spine (members : list json) : json :=
  JObj [("items", JObj [("properties", JObj [("fields", JObj [("items",
    JObj [("anyOf", JArr members)])])])])].

(** The run fails loudly: it raises, the disk is as it was, and the
    process ends with a status other than 0. *)
Definition fails_loudly (w : world) : Prop :=
  exists e, main w = (Raise e, w) ∧ exit_status (main w).1 <> 0%Z.

(** Running the script again on what a run wrote leaves the disk as the
    first run left it. *)
Definition rerun_stable (w : world) : Prop :=
  disk (main (main w).2).2 = disk (main w).2.

(** The line that the summary prints for one entry of the catalog. *)
Definition title_line (field : field_def) : string :=
  "  - " +:+ fd_title field +:+ " (type: " +:+ fd_type field +:+ ")".

(** The lines of the summary of a run that wrote a union of [total]
    members. *)
Definition summary (total : nat) : list string :=
  ["✓ Successfully split generic fields into "
   +:+ pretty (length text_fields) +:+ " text field types and "
   +:+ pretty (length number_fields) +:+ " number field types";
   "✓ Total field types in schema: " +:+ pretty total;
   nl +:+ "Text field types created:"]
  ++ map title_line text_fields
  ++ [nl +:+ "Number field types created:"]
  ++ map title_line number_fields.

(** The world after [n] runs of the script in a row. *)
Fixpoint rerun (n : nat) (w : world) : world :=
  match n with
  | 0 => w
  | S n => (main (rerun n w)).2
  end.

(** The union after [n + 1] splices of a union [orig]. *)
Fixpoint respliced (n : nat) (orig : list json) : list json :=
  match n with
  | 0 => synthesized ++ drop 2 orig
  | S n => synthesized ++ drop 2 (respliced n orig)
  end.

(** The number of line feeds in a text. *)
Fixpoint line_feeds (s : string) : nat :=
  match s with
  | EmptyString => 0
  | String a r =>
      (if Ascii.eqb a (ascii_of_nat 10) then 1 else 0) + line_feeds r
  end.

(** The number of lines that a sequence of [print] calls puts out:
    [print] ends the text of each call with a line feed. *)
Definition output_lines (out : list string) : nat :=
  foldr (fun text n => S (line_feeds text) + n) 0 out.

(** * Dictionaries *)

Module DictFacts.

Lemma get_set_eq k v (d : dict) : Dict.get k (Dict.set k v d) = Some v.
Proof.
  induction d as [|[k' v'] d IH]; simpl.
  - by rewrite String.eqb_refl.
  - destruct (String.eqb k k') eqn:E; simpl; rewrite E; [done | exact IH].
Qed.

Lemma get_set_ne k k' v (d : dict) :
  k <> k' -> Dict.get k' (Dict.set k v d) = Dict.get k' d.
Proof.
  intros Hne. induction d as [|[k0 v0] d IH]; simpl.
  - destruct (String.eqb k' k) eqn:E; [|done].
    apply String.eqb_eq in E. congruence.
  - destruct (String.eqb k k0) eqn:E; simpl.
    + apply String.eqb_eq in E. subst k0.
      destruct (String.eqb k' k) eqn:E'; [|done].
      apply String.eqb_eq in E'. congruence.
    + by rewrite IH.
Qed.

Lemma get_Some_keys k v (d : dict) : Dict.get k d = Some v -> k ∈ Dict.keys d.
Proof.
  induction d as [|[k' v'] d IH]; simpl; [done|].
  destruct (String.eqb k k') eqn:E.
  - apply String.eqb_eq in E. subst. intros _. apply list_elem_of_here.
  - intros H. apply list_elem_of_further. by apply IH.
Qed.

Lemma get_None_keys k (d : dict) : Dict.get k d = None <-> k ∉ Dict.keys d.
Proof.
  induction d as [|[k' v'] d IH]; simpl.
  - split; [intros _; apply not_elem_of_nil | done].
  - destruct (String.eqb k k') eqn:E.
    + apply String.eqb_eq in E. subst. split; [done|].
      intros H. destruct H. apply list_elem_of_here.
    + apply String.eqb_neq in E. rewrite IH, not_elem_of_cons. naive_solver.
Qed.

(** Assigning to a key that is there leaves the keys where they are. *)
Lemma keys_set_old k v (d : dict) :
  k ∈ Dict.keys d -> Dict.keys (Dict.set k v d) = Dict.keys d.
Proof.
  induction d as [|[k' v'] d IH]; simpl.
  - intros H. by apply elem_of_nil in H.
  - intros H. destruct (String.eqb k k') eqn:E; simpl; [done|].
    apply String.eqb_neq in E. apply elem_of_cons in H as [H|H]; [done|].
    f_equal. by apply IH.
Qed.

(** Assigning to a new key puts it last. *)
Lemma keys_set_new k v (d : dict) :
  k ∉ Dict.keys d -> Dict.keys (Dict.set k v d) = Dict.keys d ++ [k].
Proof.
  induction d as [|[k' v'] d IH]; simpl; [done|].
  intros H. apply not_elem_of_cons in H as [Hne H].
  destruct (String.eqb k k') eqn:E.
  - apply String.eqb_eq in E. done.
  - simpl. f_equal. by apply IH.
Qed.

Lemma keys_set k v (d : dict) :
  Dict.keys (Dict.set k v d) =
  Dict.keys d ++ (if decide (k ∈ Dict.keys d) then [] else [k]).
Proof.
  case_decide.
  - rewrite keys_set_old by done. by rewrite app_nil_r.
  - by apply keys_set_new.
Qed.

Lemma set_wf k v (d : dict) : Dict.wf d -> Dict.wf (Dict.set k v d).
Proof.
  unfold Dict.wf. intros Hd. rewrite keys_set. case_decide.
  - by rewrite app_nil_r.
  - apply NoDup_app. split_and!; [done | | apply NoDup_singleton].
    intros x Hx Hx'. apply list_elem_of_singleton in Hx'. by subst.
Qed.

Lemma keys_update (d other : dict) :
  Dict.keys (Dict.update d other) =
  Dict.keys d ++ Dict.fresh_keys (Dict.keys d) other.
Proof.
  unfold Dict.update. revert d.
  induction other as [|[k v] other IH]; intros d; simpl.
  - by rewrite app_nil_r.
  - rewrite IH, keys_set. case_decide.
    + by rewrite app_nil_r.
    + by rewrite <- app_assoc.
Qed.

Lemma update_wf (d other : dict) : Dict.wf d -> Dict.wf (Dict.update d other).
Proof.
  unfold Dict.update. revert d.
  induction other as [|[k v] other IH]; intros d Hd; simpl; [done|].
  apply IH. by apply set_wf.
Qed.

Lemma elem_of_fresh_keys k seen (other : dict) :
  k ∈ Dict.fresh_keys seen other <-> k ∈ Dict.keys other ∧ k ∉ seen.
Proof.
  revert seen. induction other as [|[k' v] other IH]; intros seen; simpl.
  - rewrite elem_of_nil. naive_solver.
  - case_decide as Hin.
    + rewrite IH, elem_of_cons. naive_solver.
    + rewrite !elem_of_cons, IH, not_elem_of_app, list_elem_of_singleton.
      destruct (decide (k = k')); naive_solver.
Qed.

(** As a set, the keys after an update are the keys before it together
    with the keys of the update. *)
Lemma key_set_update (d other : dict) :
  list_to_set (C := gset string) (Dict.keys (Dict.update d other)) =
  list_to_set (Dict.keys d) ∪ list_to_set (Dict.keys other).
Proof.
  apply set_eq. intros k.
  rewrite keys_update, elem_of_union, !elem_of_list_to_set, elem_of_app.
  rewrite elem_of_fresh_keys.
  destruct (decide (k ∈ Dict.keys d)); naive_solver.
Qed.

(** An update keeps the keys of the dict in front, in their order. *)
Lemma keys_update_take (d other : dict) :
  take (length (Dict.keys d)) (Dict.keys (Dict.update d other)) = Dict.keys d.
Proof. rewrite keys_update. by rewrite take_app_length. Qed.

(** What an update leaves under a key that it does not mention. *)
Lemma get_update_other k (d other : dict) :
  Dict.get k other = None -> Dict.get k (Dict.update d other) = Dict.get k d.
Proof.
  unfold Dict.update. revert d.
  induction other as [|[k' v] other IH]; intros d; simpl; [done|].
  destruct (String.eqb k k') eqn:E; [done|]. intros H.
  rewrite IH by done. apply get_set_ne.
  apply String.eqb_neq in E. congruence.
Qed.

(** What an update leaves under a key that it mentions. *)
Lemma get_update k v (d other : dict) :
  Dict.wf other -> Dict.get k other = Some v ->
  Dict.get k (Dict.update d other) = Some v.
Proof.
  unfold Dict.update, Dict.wf. revert d.
  induction other as [|[k' v'] other IH]; intros d Hwf; simpl; [done|].
  simpl in Hwf. apply NoDup_cons in Hwf as [Hk' Hwf].
  destruct (String.eqb k k') eqn:E.
  - apply String.eqb_eq in E. subst k'. intros [= ->].
    change (Dict.get k (Dict.update (Dict.set k v d) other) = Some v).
    rewrite get_update_other; [apply get_set_eq|].
    by apply get_None_keys.
  - intros H. by apply IH.
Qed.

End DictFacts.

(** * Paths into the document *)

Section Paths.

Implicit Types (x y doc : json) (path q : list string) (k : string).

Lemma subscript_path_app x path q :
  subscript_path x (path ++ q) =
  rbind (subscript_path x path) (fun y => subscript_path y q).
Proof.
  revert x. induction path as [|p path IH]; intros x; simpl; [done|].
  destruct (subscript x p) as [y|e]; simpl; [apply IH | done].
Qed.

(** Only an object can be subscripted by a key. *)
Lemma subscript_Ok x k y :
  subscript x k = Ok y -> exists d, x = JObj d ∧ Dict.get k d = Some y.
Proof.
  destruct x as [| | | | |items|d]; simpl; try done.
  destruct (Dict.get k d) eqn:E; [|done]. intros [= ->]. eauto.
Qed.

(** Where the target can be read, it can be assigned. *)
Lemma assign_path_total x path k u v :
  subscript_path x (path ++ [k]) = Ok u ->
  exists x', assign_path x path k v = Ok x'.
Proof.
  revert x. induction path as [|p path IH]; intros x; simpl.
  - destruct (subscript x k) as [y|e] eqn:E; [|done].
    apply subscript_Ok in E as (d & -> & _). eauto.
  - destruct (subscript x p) as [y|e] eqn:E; simpl; [|done].
    intros H. destruct (IH _ H) as [y' ->]. simpl.
    apply subscript_Ok in E as (d & -> & _). eauto.
Qed.

(** After the assignment the target reads as the value assigned. *)
Lemma subscript_assign x path k v x' :
  assign_path x path k v = Ok x' ->
  subscript_path x' (path ++ [k]) = Ok v.
Proof.
  revert x x'. induction path as [|p path IH]; intros x x'; simpl.
  - destruct x; try done. intros [= <-]. simpl.
    by rewrite DictFacts.get_set_eq.
  - destruct (subscript x p) as [y|e] eqn:E; simpl; [|done].
    destruct (assign_path y path k v) as [y'|e] eqn:E'; simpl; [|done].
    destruct x; try done. intros [= <-]. simpl.
    rewrite DictFacts.get_set_eq. simpl. by eapply IH.
Qed.

(** The assignment is invisible from every path that parts ways with
    the target. *)
Lemma assign_path_frame x path k v x' q :
  assign_path x path k v = Ok x' ->
  diverges q (path ++ [k]) ->
  subscript_path x' q = subscript_path x q.
Proof.
  intros Hassign Hdiv. remember (path ++ [k]) as target eqn:Ht.
  revert x x' path Ht Hassign.
  induction Hdiv as [k0 k1 r r' Hne | k0 r r' Hdiv IH];
    intros x x' path Ht Hassign.
  - assert (exists d d', x = JObj d ∧ x' = JObj d' ∧ d' = Dict.set k1 (default JNull (Dict.get k1 d')) d)
      as (d & d' & -> & -> & Hd').
    { destruct path as [|p path]; simpl in Ht; injection Ht as <- _; simpl in Hassign.
      - destruct x; try done. injection Hassign as <-.
        eexists _, _. split_and!; [done..|]. by rewrite DictFacts.get_set_eq.
      - destruct (subscript x k1) as [y|e]; simpl in Hassign; [|done].
        destruct (assign_path y path k v) as [y'|e]; simpl in Hassign; [|done].
        destruct x; try done. injection Hassign as <-.
        eexists _, _. split_and!; [done..|]. by rewrite DictFacts.get_set_eq. }
    simpl. rewrite Hd'. rewrite DictFacts.get_set_ne by congruence. done.
  - destruct path as [|p path]; simpl in Ht.
    + injection Ht as _ ->. inversion Hdiv.
    + injection Ht as <- ->. simpl in Hassign.
      destruct (subscript x k0) as [y|e] eqn:E; simpl in Hassign; [|done].
      destruct (assign_path y path k v) as [y'|e] eqn:E'; simpl in Hassign; [|done].
      apply subscript_Ok in E as (d & -> & Hget). injection Hassign as <-.
      simpl. rewrite DictFacts.get_set_eq, Hget. simpl.
      by eapply IH.
Qed.

(** Every object on the way to the target keeps its keys in order. *)
Lemma assign_path_keys x path k v x' u q :
  subscript_path x (path ++ [k]) = Ok u ->
  assign_path x path k v = Ok x' ->
  q `prefix_of` path ->
  keys_at x' q = keys_at x q.
Proof.
  intros Hread Hassign [r ->]. revert x x' Hread Hassign.
  induction q as [|p q IH]; intros x x' Hread Hassign.
  - unfold keys_at. simpl.
    destruct r as [|p r]; simpl in *.
    + destruct (subscript x k) as [y|e] eqn:E; [|done].
      apply subscript_Ok in E as (d & -> & Hget). injection Hassign as <-.
      f_equal. apply DictFacts.keys_set_old. by eapply DictFacts.get_Some_keys.
    + destruct (subscript x p) as [y|e] eqn:E; simpl in *; [|done].
      destruct (assign_path y r k v) as [y'|e]; simpl in *; [|done].
      apply subscript_Ok in E as (d & -> & Hget). injection Hassign as <-.
      f_equal. apply DictFacts.keys_set_old. by eapply DictFacts.get_Some_keys.
  - simpl in Hread, Hassign.
    destruct (subscript x p) as [y|e] eqn:E; simpl in *; [|done].
    destruct (assign_path y (q ++ r) k v) as [y'|e] eqn:E'; simpl in *; [|done].
    apply subscript_Ok in E as (d & -> & Hget). injection Hassign as <-.
    unfold keys_at. simpl. rewrite DictFacts.get_set_eq, Hget. simpl.
    apply (IH y y'); done.
Qed.

End Paths.

(** * The loops of [main] *)

Section Loops.

(** A loop that appends one synthesized schema per catalog entry
    appends the image of the catalog. *)
Lemma append_loop {A} (f : A -> json) (l : list A) (acc : list json) :
  fold_left (fun acc a => acc ++ [f a]) l acc = acc ++ map f l.
Proof.
  revert acc. induction l as [|a l IH]; intros acc; simpl.
  - by rewrite app_nil_r.
  - by rewrite IH, <- app_assoc.
Qed.

(** The loop over [enumerate], started at index [n]. *)
Lemma keep_loop_from (n : nat) (l acc : list json) :
  fold_left (fun acc (entry : nat * json) =>
               let (i, field) := entry in
               if (2 <=? i)%nat then acc ++ [field] else acc)
            (imap (fun i x => (n + i, x)) l) acc
  = acc ++ drop (2 - n) l.
Proof.
  revert n acc. induction l as [|x l IH]; intros n acc.
  - simpl. by rewrite drop_nil, app_nil_r.
  - rewrite imap_cons. cbn [fold_left].
    rewrite (imap_ext _ (fun i x => (S n + i, x)))
      by (intros; simpl; f_equal; lia).
    rewrite IH. replace (n + 0) with n by lia.
    destruct (2 <=? n)%nat eqn:E.
    + apply Nat.leb_le in E.
      replace (2 - n) with 0 by lia. replace (2 - S n) with 0 by lia.
      rewrite !drop_0. by rewrite <- app_assoc.
    + apply Nat.leb_gt in E.
      replace (2 - n) with (S (2 - S n)) by lia. done.
Qed.

(** The loop skips the entries at index 0 and 1 and keeps the rest. *)
Lemma keep_loop (l acc : list json) :
  fold_left (fun acc (entry : nat * json) =>
               let (i, field) := entry in
               if (2 <=? i)%nat then acc ++ [field] else acc)
            (enumerate l) acc
  = acc ++ drop 2 l.
Proof. apply (keep_loop_from 0). Qed.

End Loops.

(** * Runs of the script *)

Section Run.

Lemma bind_run {A B} (m : M A) (k : A -> M B) (w : world) :
  (m ≫= k) w =
  match m w with
  | (Ok a, w') => k a w'
  | (Raise e, w') => (Raise e, w')
  end.
Proof. reflexivity. Qed.

Lemma quiet_print line : quiet (print line).
Proof. intros w. by eexists. Qed.

Lemma quiet_bind (m : M unit) (k : unit -> M unit) :
  quiet m -> (forall u, quiet (k u)) -> quiet (m ≫= k).
Proof.
  intros Hm Hk w. rewrite bind_run.
  destruct (Hm w) as [out ->]. destruct (Hk tt {| disk := disk w; stdout := out |}) as [out' ->].
  by eexists.
Qed.

Lemma quiet_print_titles fields : quiet (print_titles fields).
Proof.
  unfold print_titles.
  assert (quiet (mret tt)) as Hret by (intros w; exists (stdout w); by destruct w).
  revert Hret. generalize (mret tt : M unit).
  induction fields as [|field fields IH]; intros m Hm; simpl; [done|].
  apply IH. apply quiet_bind; [done|]. intros _. apply quiet_print.
Qed.

(** The union that [main] builds before it looks at the document. *)
Lemma new_any_of_synthesized :
  fold_left (fun acc field_def =>
               acc ++ [create_number_field
                         (fd_type field_def)
                         (fd_title field_def)
                         (fd_description field_def)
                         (fd_business_rules field_def)
                         (fd_user_stories field_def)
                         (fd_additional_props field_def)])
            number_fields
    (fold_left (fun acc field_def =>
                  acc ++ [create_text_field
                            (fd_type field_def)
                            (fd_title field_def)
                            (fd_description field_def)
                            (fd_business_rules field_def)
                            (fd_user_stories field_def)])
               text_fields [])
  = synthesized.
Proof.
  rewrite (append_loop text_schema), (append_loop number_schema). done.
Qed.

(** A run raises what the load raises, and leaves the world alone. *)
Lemma main_load_raises w :
  disk w = Missing ∨ disk w = Unparseable ->
  exists e, main w = (Raise e, w).
Proof.
  intros H. unfold main. rewrite bind_run. unfold load_schema.
  destruct H as [-> | ->]; by eexists.
Qed.

(** A run raises what reading the union raises, and leaves the world
    alone. *)
Lemma main_read_raises w doc e :
  disk w = Holds doc ->
  subscript_path doc union_path = Raise e ->
  main w = (Raise e, w).
Proof.
  intros Hdisk Hread. unfold main. rewrite bind_run. unfold load_schema.
  rewrite Hdisk. cbv zeta. rewrite bind_run. unfold lift.
  unfold union_path in Hread. by rewrite Hread.
Qed.

(** A run raises what iterating over the union raises, and leaves the
    world alone. *)
Lemma main_iterate_raises w doc u e :
  disk w = Holds doc ->
  subscript_path doc union_path = Ok u ->
  iterate u = Raise e ->
  main w = (Raise e, w).
Proof.
  intros Hdisk Hread Hiter. unfold main. rewrite bind_run. unfold load_schema.
  rewrite Hdisk. cbv zeta. rewrite bind_run. unfold lift at 1.
  unfold union_path in Hread. rewrite Hread.
  rewrite bind_run. unfold lift at 1. by rewrite Hiter.
Qed.

(** Where the union can be read and iterated over, the run returns and
    leaves on disk the document with the union replaced by the nine
    synthesized schemas followed by what the loop kept. *)
Lemma main_returns w doc u visited :
  disk w = Holds doc ->
  subscript_path doc union_path = Ok u ->
  iterate u = Ok visited ->
  exists doc' out,
    main w = (Ok tt, {| disk := Holds doc'; stdout := out |}) ∧
    assign_path doc ["items"; "properties"; "fields"; "items"] "anyOf"
      (JArr (synthesized ++ drop 2 visited)) = Ok doc'.
Proof.
  intros Hdisk Hread Hiter.
  destruct (assign_path_total doc ["items"; "properties"; "fields"; "items"]
              "anyOf" u (JArr (synthesized ++ drop 2 visited)) Hread)
    as [doc' Hassign].
  exists doc'.
  unfold main. rewrite bind_run. unfold load_schema. rewrite Hdisk. cbv zeta.
  rewrite bind_run. unfold lift at 1.
  unfold union_path in Hread. rewrite Hread.
  rewrite bind_run. unfold lift at 1. rewrite Hiter.
  rewrite keep_loop, new_any_of_synthesized.
  rewrite bind_run. unfold lift at 1. rewrite Hassign.
  rewrite bind_run. unfold dump_schema at 1.
  match goal with
  | |- exists out, ?tail ?w' = _ ∧ _ =>
      assert (quiet tail) as Hq
  end.
  { repeat (apply quiet_bind; [apply quiet_print || apply quiet_print_titles | intros _]).
    apply quiet_print_titles. }
  destruct (Hq {| disk := Holds doc'; stdout := stdout w |}) as [out Hout].
  exists out. split; [exact Hout | done].
Qed.

End Run.

(** * The synthesizers *)

Section Synthesizers.

Implicit Types (field_type title description k : string).
Implicit Types (business_rules user_stories : list json).
Implicit Types (additional_props : option dict) (extra : dict).

(** The keys of the two common templates. *)
Lemma text_template_keys field_type title :
  Dict.keys (text_template field_type title) =
  ["id"; "name"; "required"; "unique"; "indexed"; "type"; "default"].
Proof. reflexivity. Qed.

Lemma number_template_keys field_type title :
  Dict.keys (number_template field_type title) =
  ["id"; "name"; "required"; "unique"; "indexed"; "type"; "min"; "max";
   "default"].
Proof. reflexivity. Qed.

Lemma number_template_wf field_type title :
  Dict.wf (number_template field_type title).
Proof.
  unfold Dict.wf. rewrite number_template_keys.
  apply (bool_decide_unpack _). by vm_compute.
Qed.

(** The text synthesizer declares its template and nothing else. *)
Lemma text_properties field_type title description business_rules user_stories :
  properties_of
    (create_text_field field_type title description business_rules user_stories)
  = Some (text_template field_type title).
Proof. reflexivity. Qed.

(** The number synthesizer declares its template, updated with the
    extras when there are some. *)
Lemma number_properties field_type title description business_rules
    user_stories additional_props :
  properties_of
    (create_number_field field_type title description business_rules
       user_stories additional_props)
  = Some (if truthy additional_props
          then Dict.update (number_template field_type title)
                 (extras additional_props)
          else number_template field_type title).
Proof. unfold create_number_field. destruct (truthy additional_props); reflexivity. Qed.

(** Whether or not the extras are truthy, the declared properties are
    the template updated with them. *)
Lemma number_properties_update field_type title description business_rules
    user_stories additional_props :
  properties_of
    (create_number_field field_type title description business_rules
       user_stories additional_props)
  = Some (Dict.update (number_template field_type title)
            (extras additional_props)).
Proof.
  rewrite number_properties.
  destruct additional_props as [[|kv extra]|]; reflexivity.
Qed.

(** The top-level members of a number schema other than [properties]
    do not depend on the extras. *)
Lemma number_member k field_type title description business_rules
    user_stories additional_props :
  k <> "properties" ->
  member k (create_number_field field_type title description business_rules
              user_stories additional_props)
  = member k (create_number_field field_type title description business_rules
                user_stories None).
Proof.
  intros Hk. unfold create_number_field.
  destruct (truthy additional_props); [|done].
  cbv zeta. unfold member, update_member.
  match goal with
  | |- context [Dict.get "properties" ?d] =>
      change (Dict.get "properties" d) with
        (Some (JObj (number_template field_type title)))
  end.
  cbv iota. apply DictFacts.get_set_ne. congruence.
Qed.

(** No item is stored under a key that is not among the keys. *)
Lemma filter_key_absent k (d : dict) :
  k ∉ Dict.keys d -> filter (fun kv => kv.1 = k) d = [].
Proof.
  induction d as [|[k' v'] d IH]; simpl; [done|].
  intros H. apply not_elem_of_cons in H as [Hne H].
  rewrite filter_cons_False by (simpl; congruence). by apply IH.
Qed.

(** In a dict, the items under a key are one item. *)
Lemma wf_filter_key k v (d : dict) :
  Dict.wf d -> Dict.get k d = Some v ->
  filter (fun kv => kv.1 = k) d = [(k, v)].
Proof.
  unfold Dict.wf. induction d as [|[k' v'] d IH]; simpl; [done|].
  intros Hwf. apply NoDup_cons in Hwf as [Hk' Hwf].
  destruct (String.eqb k k') eqn:E.
  - apply String.eqb_eq in E. subst k'. intros [= ->].
    rewrite filter_cons_True by done. f_equal. by apply filter_key_absent.
  - apply String.eqb_neq in E. intros Hget.
    rewrite filter_cons_False by (simpl; congruence). by apply IH.
Qed.

End Synthesizers.

(** * Properties of the synthesized schemas *)

(** The discriminator of a number schema is the descriptor's type code
    as long as the extras do not declare a [type] of their own. *)
Lemma number_type_const field_type title description business_rules
    user_stories additional_props :
  Dict.get "type" (extras additional_props) = None ->
  type_const (create_number_field field_type title description business_rules
                user_stories additional_props)
  = Some (JStr field_type).
Proof.
  intros Hextra. unfold type_const, property.
  rewrite number_properties_update. simpl.
  rewrite DictFacts.get_update_other by done. reflexivity.
Qed.

(** C5: every synthesized schema, of either family, has [required] equal
    to the list [id], [name], [type], has [additionalProperties] equal to
    [false], and declares, as a set of keys, exactly the common template
    of its family together with the extras of its descriptor.  The
    template of the text family is [id], [name], [required], [unique],
    [indexed], [type], [default]; the one of the number family has [min]
    and [max] before [default].  The text synthesizer takes no extras,
    and no entry of [text_fields] has any. *)
Theorem closed_world (fd : field_def) :
  (member "required" (text_schema fd)
     = Some (JArr [JStr "id"; JStr "name"; JStr "type"]) ∧
   member "additionalProperties" (text_schema fd) = Some (JBool false) ∧
   exists p,
     properties_of (text_schema fd) = Some p ∧
     Dict.keys p
     = ["id"; "name"; "required"; "unique"; "indexed"; "type"; "default"] ∧
     list_to_set (C := gset string) (Dict.keys p) =
     list_to_set ["id"; "name"; "required"; "unique"; "indexed"; "type";
                  "default"]) ∧
  (member "required" (number_schema fd)
     = Some (JArr [JStr "id"; JStr "name"; JStr "type"]) ∧
   member "additionalProperties" (number_schema fd) = Some (JBool false) ∧
   exists p,
     properties_of (number_schema fd) = Some p ∧
     take 9 (Dict.keys p)
     = ["id"; "name"; "required"; "unique"; "indexed"; "type"; "min"; "max";
        "default"] ∧
     list_to_set (C := gset string) (Dict.keys p) =
     list_to_set ["id"; "name"; "required"; "unique"; "indexed"; "type";
                  "min"; "max"; "default"]
     ∪ list_to_set (Dict.keys (extras (fd_additional_props fd)))) ∧
  Forall (fun fd => fd_additional_props fd = None) text_fields.
Proof.
  split_and!.
  - reflexivity.
  - reflexivity.
  - eexists. split_and!; [apply text_properties | reflexivity | reflexivity].
  - unfold number_schema. by rewrite number_member.
  - unfold number_schema. by rewrite number_member.
  - eexists. split_and!; [apply number_properties_update | |].
    + apply (DictFacts.keys_update_take
               (number_template (fd_type fd) (fd_title fd))).
    + rewrite DictFacts.key_set_update. by rewrite number_template_keys.
  - repeat constructor.
Qed.

(** C6: the constant of the [type] property of every synthesized schema
    is the type code of the descriptor it was generated from, and no two
    of the nine descriptors of the catalog have the same type code. *)
Theorem discriminator_correct :
  (forall fd, type_const (text_schema fd) = Some (JStr (fd_type fd))) ∧
  Forall (fun fd => type_const (number_schema fd) = Some (JStr (fd_type fd)))
         number_fields ∧
  length (text_fields ++ number_fields) = 9 ∧
  NoDup (map fd_type (text_fields ++ number_fields)).
Proof.
  split_and!.
  - reflexivity.
  - repeat constructor; apply number_type_const; reflexivity.
  - reflexivity.
  - apply (bool_decide_unpack _). by vm_compute.
Qed.

(** C7: a text schema carries both [x-user-stories] and
    [x-business-rules] at its top level, copied from the descriptor; a
    number schema carries [x-business-rules] only and has no top-level
    [x-user-stories]. *)
Theorem annotation_asymmetry (fd : field_def) :
  member "x-user-stories" (text_schema fd) = Some (JArr (fd_user_stories fd)) ∧
  member "x-business-rules" (text_schema fd) = Some (JArr (fd_business_rules fd)) ∧
  member "x-business-rules" (number_schema fd) = Some (JArr (fd_business_rules fd)) ∧
  member "x-user-stories" (number_schema fd) = None.
Proof.
  split_and!; [reflexivity | reflexivity | |];
    unfold number_schema; by rewrite number_member.
Qed.


(** C9: the schema of the decimal descriptor declares [precision] with
    minimum 0, maximum 10 and default 2; the schema of the currency
    descriptor declares [currency] with default USD. *)
Theorem numeric_extras (fd : field_def) :
  fd ∈ number_fields ->
  (fd_type fd = "decimal" ->
   exists p,
     property "precision" (number_schema fd) = Some p ∧
     member "minimum" p = Some (JInt 0) ∧
     member "maximum" p = Some (JInt 10) ∧
     member "default" p = Some (JInt 2)) ∧
  (fd_type fd = "currency" ->
   exists p,
     property "currency" (number_schema fd) = Some p ∧
     member "default" p = Some (JStr "USD")).
Proof.
  intros Hin. unfold number_fields in Hin.
  repeat (apply elem_of_cons in Hin as [-> | Hin]);
    [ .. | by apply elem_of_nil in Hin ];
    (split; intros Hcode; [ try discriminate Hcode | try discriminate Hcode ]).
  - eexists. split_and!; reflexivity.
  - eexists. split_and!; reflexivity.
Qed.

(** The decimal and the currency descriptor are the second and the third
    entry of [number_fields]. *)
Lemma numeric_extras_witness :
  exists dec cur,
    number_fields !! 1 = Some dec ∧ fd_type dec = "decimal" ∧
    number_fields !! 2 = Some cur ∧ fd_type cur = "currency" ∧
    (exists p,
       property "precision" (number_schema dec) = Some p ∧
       member "minimum" p = Some (JInt 0) ∧
       member "maximum" p = Some (JInt 10) ∧
       member "default" p = Some (JInt 2)) ∧
    (exists p,
       property "currency" (number_schema cur) = Some p ∧
       member "default" p = Some (JStr "USD")).
Proof.
  eexists _, _. split_and!; [reflexivity .. | |].
  - match goal with
    | |- exists p, property _ (number_schema ?d) = _ ∧ _ =>
        refine (proj1 (numeric_extras d _) eq_refl)
    end.
    apply list_elem_of_lookup. by exists 1.
  - match goal with
    | |- exists p, property _ (number_schema ?d) = _ ∧ _ =>
        refine (proj2 (numeric_extras d _) eq_refl)
    end.
    apply list_elem_of_lookup. by exists 2.
Defined.

(** C10: when the extras of a number descriptor name a key of the common
    template, synthesis goes through and the schema declares one
    property under that key, the one of the extras; the keys of the
    template stay in front, in the template's order, so the key is where
    it was. *)
Theorem extra_overrides_template field_type title description
    (business_rules user_stories : list json) (extra : dict)
    (k : string) (v : json) :
  Dict.wf extra ->
  k ∈ Dict.keys (number_template field_type title) ->
  Dict.get k extra = Some v ->
  exists p,
    properties_of (create_number_field field_type title description
                     business_rules user_stories (Some extra)) = Some p ∧
    filter (fun kv => kv.1 = k) p = [(k, v)] ∧
    Dict.get k p = Some v ∧
    take 9 (Dict.keys p) = Dict.keys (number_template field_type title) ∧
    (forall i, Dict.keys p !! i = Some k <->
               Dict.keys (number_template field_type title) !! i = Some k).
Proof.
  intros Hwf Hk Hget.
  set (p := Dict.update (number_template field_type title) extra).
  assert (Dict.get k p = Some v) as Hp by by apply DictFacts.get_update.
  assert (Dict.wf p) as Hpwf
    by apply DictFacts.update_wf, number_template_wf.
  assert (take 9 (Dict.keys p) = Dict.keys (number_template field_type title))
    as Htake by apply (DictFacts.keys_update_take (number_template field_type title)).
  exists p. split_and!; [apply number_properties_update | | done | done |].
  - by apply wf_filter_key.
  - intros i. split.
    + intros Hi. destruct (decide (i < 9)) as [Hlt | Hge].
      * by rewrite <- Htake, lookup_take_lt.
      * exfalso. apply list_elem_of_lookup in Hk as [j Hj].
        assert (j < 9) as Hj9.
        { apply lookup_lt_Some in Hj. by rewrite number_template_keys in Hj. }
        rewrite <- Htake, lookup_take_lt in Hj by done.
        assert (i = j) by (eapply NoDup_lookup; eauto). lia.
    + intros Hi.
      assert (i < 9) as Hlt.
      { apply lookup_lt_Some in Hi. by rewrite number_template_keys in Hi. }
      by rewrite <- Htake, lookup_take_lt in Hi.
Qed.

(** An extra [default] takes the place of the template's [default] and
    stays the last of the nine keys. *)
Lemma extra_overrides_template_witness :
  exists p,
    properties_of (create_number_field "integer" "Integer Field" "" [] []
                     (Some [("default", JObj [("type", JStr "integer")])]))
    = Some p ∧
    filter (fun kv => kv.1 = "default") p
    = [("default", JObj [("type", JStr "integer")])] ∧
    Dict.get "default" p = Some (JObj [("type", JStr "integer")]) ∧
    take 9 (Dict.keys p) = Dict.keys (number_template "integer" "Integer Field") ∧
    (forall i, Dict.keys p !! i = Some "default" <->
               Dict.keys (number_template "integer" "Integer Field") !! i
               = Some "default").
Proof.
  apply (extra_overrides_template "integer" "Integer Field" "" [] []
           [("default", JObj [("type", JStr "integer")])] "default"
           (JObj [("type", JStr "integer")])).
  - apply (bool_decide_unpack _). by vm_compute.
  - apply (bool_decide_unpack _). by vm_compute.
  - reflexivity.
Defined.

(** * The splice *)

Lemma synthesized_length :
  length synthesized = length text_fields + length number_fields.
Proof. unfold synthesized. by rewrite length_app, !length_map. Qed.

Lemma catalog_sizes : length text_fields = 5 ∧ length number_fields = 4.
Proof. done. Qed.

(** What a run does to a document whose union is a list: it returns, and
    the document on disk has the nine synthesized schemas followed by
    the members from index 2 on as its union; nothing off the path to
    the union has changed, and the objects on the path have their keys
    in the same order. *)
Lemma main_splices w doc (orig : list json) :
  disk w = Holds doc ->
  subscript_path doc union_path = Ok (JArr orig) ->
  exists doc' out,
    main w = (Ok tt, {| disk := Holds doc'; stdout := out |}) ∧
    subscript_path doc' union_path = Ok (JArr (synthesized ++ drop 2 orig)) ∧
    (forall q, diverges q union_path ->
               subscript_path doc' q = subscript_path doc q) ∧
    (forall q, q `prefix_of` ["items"; "properties"; "fields"; "items"] ->
               keys_at doc' q = keys_at doc q).
Proof.
  intros Hdisk Hread.
  destruct (main_returns w doc (JArr orig) orig Hdisk Hread eq_refl)
    as (doc' & out & Hmain & Hassign).
  exists doc', out. split_and!; [done | | |].
  - apply (subscript_assign _ _ _ _ _ Hassign).
  - intros q Hq. by apply (assign_path_frame _ _ _ _ _ _ Hassign).
  - intros q Hq.
    by apply (assign_path_keys doc ["items"; "properties"; "fields"; "items"]
                "anyOf" _ doc' (JArr orig) q Hread Hassign).
Qed.

(** C3: for a union of length L with L >= 2 the run writes a union of
    length T + N + (L - 2), where T = 5 and N = 4 are the sizes of the
    two catalogs. *)
Theorem union_length_law w doc (orig : list json) :
  disk w = Holds doc ->
  subscript_path doc union_path = Ok (JArr orig) ->
  2 <= length orig ->
  exists w' new,
    main w = (Ok tt, w') ∧
    union_on w' = Some new ∧
    length new = length text_fields + length number_fields + (length orig - 2) ∧
    length new = 5 + 4 + (length orig - 2).
Proof.
  intros Hdisk Hread HL.
  destruct (main_splices w doc orig Hdisk Hread)
    as (doc' & out & Hmain & Hunion & _).
  eexists _, _. split_and!; [exact Hmain | | |].
  - unfold union_on. cbn [disk]. by rewrite Hunion.
  - by rewrite length_app, length_drop, synthesized_length.
  - by rewrite length_app, length_drop, synthesized_length.
Qed.

Lemma union_length_law_witness :
  exists w' new,
    main {| disk := Holds (spine [JInt 0; JInt 1; JInt 2; JInt 3; JInt 4]);
            stdout := [] |} = (Ok tt, w') ∧
    union_on w' = Some new ∧
    length new = length text_fields + length number_fields + (5 - 2) ∧
    length new = 5 + 4 + (5 - 2).
Proof.
  apply (union_length_law
           {| disk := Holds (spine [JInt 0; JInt 1; JInt 2; JInt 3; JInt 4]);
              stdout := [] |}
           (spine [JInt 0; JInt 1; JInt 2; JInt 3; JInt 4])
           [JInt 0; JInt 1; JInt 2; JInt 3; JInt 4]).
  - reflexivity.
  - reflexivity.
  - simpl. lia.
Defined.

(** C4: for a union of length L >= 2 the members of the written union at
    the positions from T + N up to T + N + (L - 2) are the original
    members at the positions from 2 up to L, in order and as they were;
    every value off the path to the union is what it was, and every
    object on the path has its keys in the same order. *)
Theorem order_preservation w doc (orig : list json) :
  disk w = Holds doc ->
  subscript_path doc union_path = Ok (JArr orig) ->
  2 <= length orig ->
  exists doc' out new,
    main w = (Ok tt, {| disk := Holds doc'; stdout := out |}) ∧
    subscript_path doc' union_path = Ok (JArr new) ∧
    length new = length text_fields + length number_fields + (length orig - 2) ∧
    (forall i, i < length orig - 2 ->
       new !! (length text_fields + length number_fields + i) = orig !! (2 + i)) ∧
    drop (length text_fields + length number_fields) new = drop 2 orig ∧
    (forall q, diverges q union_path ->
               subscript_path doc' q = subscript_path doc q) ∧
    (forall q, q `prefix_of` ["items"; "properties"; "fields"; "items"] ->
               keys_at doc' q = keys_at doc q).
Proof.
  intros Hdisk Hread HL.
  destruct (main_splices w doc orig Hdisk Hread)
    as (doc' & out & Hmain & Hunion & Hoff & Hon).
  exists doc', out, (synthesized ++ drop 2 orig).
  split_and!; [done | done | | | | done | done].
  - by rewrite length_app, length_drop, synthesized_length.
  - intros i Hi. rewrite <- synthesized_length.
    rewrite lookup_app_r by lia.
    rewrite lookup_drop. f_equal. lia.
  - rewrite <- synthesized_length. apply drop_app_length.
Qed.

Lemma order_preservation_witness :
  exists doc' out new,
    main {| disk := Holds (spine [JInt 0; JInt 1; JStr "kept"; JNull]);
            stdout := [] |}
    = (Ok tt, {| disk := Holds doc'; stdout := out |}) ∧
    subscript_path doc' union_path = Ok (JArr new) ∧
    length new = length text_fields + length number_fields + (4 - 2) ∧
    (forall i, i < 4 - 2 ->
       new !! (length text_fields + length number_fields + i)
       = [JInt 0; JInt 1; JStr "kept"; JNull] !! (2 + i)) ∧
    drop (length text_fields + length number_fields) new
    = drop 2 [JInt 0; JInt 1; JStr "kept"; JNull] ∧
    (forall q, diverges q union_path ->
       subscript_path doc' q
       = subscript_path (spine [JInt 0; JInt 1; JStr "kept"; JNull]) q) ∧
    (forall q, q `prefix_of` ["items"; "properties"; "fields"; "items"] ->
       keys_at doc' q = keys_at (spine [JInt 0; JInt 1; JStr "kept"; JNull]) q).
Proof.
  apply (order_preservation
           {| disk := Holds (spine [JInt 0; JInt 1; JStr "kept"; JNull]);
              stdout := [] |}
           (spine [JInt 0; JInt 1; JStr "kept"; JNull])
           [JInt 0; JInt 1; JStr "kept"; JNull]).
  - reflexivity.
  - reflexivity.
  - simpl. lia.
Defined.

(** A run on a union with a single member returns with status 0 and
    writes a union that is the nine synthesized schemas: a union with
    fewer than two members is not a fatal error. *)
Lemma short_union_not_fatal :
  let w := {| disk := Holds (spine [JStr "only"]); stdout := [] |} in
  subscript_path (spine [JStr "only"]) union_path = Ok (JArr [JStr "only"]) ∧
  ¬ fails_loudly w ∧
  exit_status (main w).1 = 0%Z ∧
  union_on (main w).2 = Some synthesized.
Proof.
  cbv zeta. split_and!.
  - reflexivity.
  - intros (e & He & _). vm_compute in He. discriminate He.
  - by vm_compute.
  - by vm_compute.
Qed.

(** C1, as the script has it: when the path to the union cannot be
    followed (a key is missing, or a value on the way is not an object)
    the run raises, exits with status 1 and leaves the disk alone; when
    the union is a list of fewer than two members the run does not fail:
    it exits with status 0 and writes a document whose union is the nine
    synthesized schemas and nothing else. *)
Theorem structural_mismatch w doc :
  disk w = Holds doc ->
  (forall e, subscript_path doc union_path = Raise e ->
     main w = (Raise e, w) ∧ exit_status (main w).1 = 1%Z ∧ fails_loudly w) ∧
  (forall orig, subscript_path doc union_path = Ok (JArr orig) ->
     length orig < 2 ->
     exists w', main w = (Ok tt, w') ∧ exit_status (main w).1 = 0%Z ∧
                union_on w' = Some synthesized).
Proof.
  intros Hdisk. split.
  - intros e Hread.
    pose proof (main_read_raises w doc e Hdisk Hread) as Hmain.
    split_and!; [done | by rewrite Hmain |].
    exists e. by rewrite Hmain.
  - intros orig Hread HL.
    destruct (main_splices w doc orig Hdisk Hread)
      as (doc' & out & Hmain & Hunion & _).
    eexists. split_and!; [exact Hmain | by rewrite Hmain |].
    unfold union_on. cbn [disk]. rewrite Hunion.
    rewrite drop_ge by lia. by rewrite app_nil_r.
Qed.

Lemma structural_mismatch_witness :
  (let w := {| disk := Holds (JObj [("items", JObj [])]); stdout := [] |} in
   main w = (Raise (KeyError "properties"), w) ∧
   exit_status (main w).1 = 1%Z ∧ fails_loudly w) ∧
  (let w := {| disk := Holds (spine [JStr "only"]); stdout := [] |} in
   exists w', main w = (Ok tt, w') ∧ exit_status (main w).1 = 0%Z ∧
              union_on w' = Some synthesized).
Proof.
  split; cbv zeta.
  - apply (proj1 (structural_mismatch
                    {| disk := Holds (JObj [("items", JObj [])]); stdout := [] |}
                    (JObj [("items", JObj [])]) eq_refl)).
    reflexivity.
  - apply (proj2 (structural_mismatch
                    {| disk := Holds (spine [JStr "only"]); stdout := [] |}
                    (spine [JStr "only"]) eq_refl) [JStr "only"]).
    + reflexivity.
    + simpl. lia.
Defined.

(** A second run on the output of a run on a two-member union does not
    leave the disk as the first run left it. *)
Lemma rerun_not_stable :
  let w := {| disk := Holds (spine [JStr "Text Field"; JStr "Number Field"]);
              stdout := [] |} in
  subscript_path (spine [JStr "Text Field"; JStr "Number Field"]) union_path
  = Ok (JArr [JStr "Text Field"; JStr "Number Field"]) ∧
  (main w).1 = Ok tt ∧
  ¬ rerun_stable w.
Proof.
  cbv zeta. split_and!.
  - reflexivity.
  - by vm_compute.
  - unfold rerun_stable. intros H.
    apply (f_equal (fun f => length <$> union_on {| disk := f; stdout := [] |})) in H.
    vm_compute in H. discriminate H.
Qed.

(** C2, as the script has it: a run is not idempotent.  On a document
    whose union is a list, a second run on the output of the first
    returns as well, and its union is the nine synthesized schemas,
    then the last seven of them (the second run takes the first two
    synthesized schemas for the generic ones and skips them), then the
    original members from index 2 on: seven members more than after
    the first run. *)
Theorem rerun_grows w doc (orig : list json) :
  disk w = Holds doc ->
  subscript_path doc union_path = Ok (JArr orig) ->
  exists w1 w2,
    main w = (Ok tt, w1) ∧
    main w1 = (Ok tt, w2) ∧
    union_on w1 = Some (synthesized ++ drop 2 orig) ∧
    union_on w2 = Some (synthesized ++ drop 2 synthesized ++ drop 2 orig) ∧
    length <$> union_on w2 = (fun n => n + 7) <$> (length <$> union_on w1) ∧
    disk w2 <> disk w1.
Proof.
  intros Hdisk Hread.
  destruct (main_splices w doc orig Hdisk Hread)
    as (doc1 & out1 & Hmain1 & Hunion1 & _).
  destruct (main_splices {| disk := Holds doc1; stdout := out1 |} doc1
              (synthesized ++ drop 2 orig) eq_refl Hunion1)
    as (doc2 & out2 & Hmain2 & Hunion2 & _).
  rewrite drop_app_le in Hunion2 by (rewrite synthesized_length; simpl; lia).
  assert (union_on {| disk := Holds doc1; stdout := out1 |}
          = Some (synthesized ++ drop 2 orig)) as H1.
  { unfold union_on. cbn [disk]. by rewrite Hunion1. }
  assert (union_on {| disk := Holds doc2; stdout := out2 |}
          = Some (synthesized ++ drop 2 synthesized ++ drop 2 orig)) as H2.
  { unfold union_on. cbn [disk]. by rewrite Hunion2. }
  assert (length <$> union_on {| disk := Holds doc2; stdout := out2 |}
          = (fun n => n + 7)
              <$> (length <$> union_on {| disk := Holds doc1; stdout := out1 |}))
    as Hlen.
  { rewrite H1, H2. cbn [fmap option_fmap option_map]. f_equal.
    rewrite !length_app, !length_drop, synthesized_length. simpl. lia. }
  eexists _, _. split_and!; [exact Hmain1 | exact Hmain2 | done | done | done |].
  cbn [disk]. intros Heq. injection Heq as ->.
  rewrite Hunion1 in Hunion2.
  assert (length (synthesized ++ drop 2 orig)
          = length (synthesized ++ drop 2 synthesized ++ drop 2 orig)) as Hsame
    by congruence.
  rewrite !length_app, !length_drop, synthesized_length in Hsame.
  simpl in Hsame. lia.
Qed.

Lemma rerun_grows_witness :
  exists w1 w2,
    main {| disk := Holds (spine [JStr "Text Field"; JStr "Number Field"; JNull]);
            stdout := [] |} = (Ok tt, w1) ∧
    main w1 = (Ok tt, w2) ∧
    union_on w1
    = Some (synthesized ++ drop 2 [JStr "Text Field"; JStr "Number Field"; JNull]) ∧
    union_on w2
    = Some (synthesized ++ drop 2 synthesized
            ++ drop 2 [JStr "Text Field"; JStr "Number Field"; JNull]) ∧
    length <$> union_on w2 = (fun n => n + 7) <$> (length <$> union_on w1) ∧
    disk w2 <> disk w1.
Proof.
  apply (rerun_grows
           {| disk := Holds (spine [JStr "Text Field"; JStr "Number Field"; JNull]);
              stdout := [] |}
           (spine [JStr "Text Field"; JStr "Number Field"; JNull])
           [JStr "Text Field"; JStr "Number Field"; JNull]).
  - reflexivity.
  - reflexivity.
Defined.

(** * Further properties of the script *)

Section Summary.

(** The loop over the catalog prints one line per entry, in order. *)
Lemma print_titles_from (fields : list field_def) (m : M unit)
    (pre : list string) :
  (forall w, m w = (Ok tt, {| disk := disk w; stdout := stdout w ++ pre |})) ->
  forall w,
    fold_left (fun (m : M unit) field =>
                 _ ← m;
                 print ("  - " +:+ fd_title field +:+ " (type: "
                        +:+ fd_type field +:+ ")"))
              fields m w
    = (Ok tt, {| disk := disk w;
                 stdout := stdout w ++ pre ++ map title_line fields |}).
Proof.
  revert m pre. induction fields as [|field fields IH]; intros m pre Hm w.
  - simpl. by rewrite Hm, app_nil_r.
  - cbn [fold_left map].
    rewrite (IH _ (pre ++ [title_line field])).
    + by rewrite <- (app_assoc pre).
    + intros w0. rewrite bind_run, Hm. unfold print. cbn [disk stdout].
      by rewrite <- app_assoc.
Qed.

Lemma print_titles_run (fields : list field_def) (w : world) :
  print_titles fields w
  = (Ok tt, {| disk := disk w; stdout := stdout w ++ map title_line fields |}).
Proof.
  unfold print_titles. rewrite (print_titles_from fields _ []); [done|].
  intros w0. destruct w0. cbn. by rewrite app_nil_r.
Qed.

(** A run that gets as far as the loop returns; it leaves on disk the
    document with the new union and adds the summary to standard
    output. *)
Lemma main_returns_summary w doc u visited :
  disk w = Holds doc ->
  subscript_path doc union_path = Ok u ->
  iterate u = Ok visited ->
  exists doc',
    main w = (Ok tt, {| disk := Holds doc';
                        stdout := stdout w
                                  ++ summary (length (synthesized ++ drop 2 visited)) |}) ∧
    assign_path doc ["items"; "properties"; "fields"; "items"] "anyOf"
      (JArr (synthesized ++ drop 2 visited)) = Ok doc'.
Proof.
  intros Hdisk Hread Hiter.
  destruct (assign_path_total doc ["items"; "properties"; "fields"; "items"]
              "anyOf" u (JArr (synthesized ++ drop 2 visited)) Hread)
    as [doc' Hassign].
  exists doc'. split; [|done].
  unfold main. rewrite bind_run. unfold load_schema. rewrite Hdisk. cbv zeta.
  rewrite bind_run. unfold lift at 1.
  unfold union_path in Hread. rewrite Hread.
  rewrite bind_run. unfold lift at 1. rewrite Hiter.
  rewrite keep_loop, new_any_of_synthesized.
  rewrite bind_run. unfold lift at 1. rewrite Hassign.
  rewrite bind_run. unfold dump_schema at 1.
  rewrite bind_run. unfold print at 1.
  rewrite bind_run. unfold print at 1.
  rewrite bind_run. unfold print at 1.
  rewrite bind_run, print_titles_run.
  rewrite bind_run. unfold print at 1.
  rewrite print_titles_run.
  cbn [disk stdout]. unfold summary.
  by rewrite <- !app_assoc.
Qed.

Lemma line_feeds_app (s1 s2 : string) :
  line_feeds (s1 +:+ s2) = line_feeds s1 + line_feeds s2.
Proof.
  induction s1 as [|a s1 IH]; simpl; [done|]. rewrite IH. lia.
Qed.

(** Printing a number brings digits only. *)
Lemma line_feeds_pretty_N_go (x : N) (s : string) :
  line_feeds (pretty_N_go x s) = line_feeds s.
Proof.
  revert s. induction (N.lt_wf_0 x) as [x _ IH]; intros s.
  assert (x = 0 ∨ 0 < x)%N as [-> | Hpos] by lia.
  - by rewrite pretty_N_go_0.
  - rewrite pretty_N_go_step by done.
    rewrite IH by (by apply N.div_lt).
    cbn [line_feeds]. unfold pretty_N_char. by repeat case_match.
Qed.

Lemma line_feeds_pretty (n : nat) : line_feeds (pretty n) = 0.
Proof.
  unfold pretty, pretty_nat, pretty, pretty_N.
  case_decide; [done|]. apply line_feeds_pretty_N_go.
Qed.

Lemma output_lines_app (out1 out2 : list string) :
  output_lines (out1 ++ out2) = output_lines out1 + output_lines out2.
Proof.
  induction out1 as [|text out1 IH]; [done|].
  change (output_lines ((text :: out1) ++ out2))
    with (S (line_feeds text) + output_lines (out1 ++ out2)).
  change (output_lines (text :: out1))
    with (S (line_feeds text) + output_lines out1).
  rewrite IH. lia.
Qed.

(** The summary is fifteen lines, whatever the total. *)
Lemma summary_output_lines (total : nat) : output_lines (summary total) = 15.
Proof.
  unfold summary. rewrite !output_lines_app.
  cbn [output_lines foldr].
  rewrite !line_feeds_app, !line_feeds_pretty.
  reflexivity.
Qed.

End Summary.

Section MoreRuns.

Lemma lookup_map {A B} (f : A -> B) (l : list A) (i : nat) :
  map f l !! i = f <$> l !! i.
Proof. exact (list_lookup_fmap f l i). Qed.

(** Where a union is found on disk, the disk holds a document and the
    union path reads as that list. *)
Lemma union_on_inv w (u : list json) :
  union_on w = Some u ->
  exists doc, disk w = Holds doc ∧ subscript_path doc union_path = Ok (JArr u).
Proof.
  unfold union_on. destruct (disk w) as [| |doc]; try done.
  destruct (subscript_path doc union_path) as [[]|] eqn:E; try done.
  intros [= ->]. eauto.
Qed.

Lemma union_on_holds doc out (u : list json) :
  subscript_path doc union_path = Ok (JArr u) ->
  union_on {| disk := Holds doc; stdout := out |} = Some u.
Proof. intros H. unfold union_on. cbn [disk]. by rewrite H. Qed.

(** The union after [n + 1] runs in a row. *)
Lemma rerun_union w doc (orig : list json) (n : nat) :
  disk w = Holds doc ->
  subscript_path doc union_path = Ok (JArr orig) ->
  union_on (rerun (S n) w) = Some (respliced n orig).
Proof.
  intros Hdisk Hread. induction n as [|n IH].
  - cbn [rerun respliced].
    destruct (main_splices w doc orig Hdisk Hread)
      as (doc' & out & -> & Hunion & _).
    by apply union_on_holds.
  - apply union_on_inv in IH as (docn & Hdiskn & Hreadn).
    change (rerun (S (S n)) w) with (main (rerun (S n) w)).2.
    cbn [respliced].
    destruct (main_splices _ docn _ Hdiskn Hreadn)
      as (doc' & out & -> & Hunion & _).
    by apply union_on_holds.
Qed.

Lemma respliced_length (orig : list json) (n : nat) :
  length (respliced n orig) = 9 + 7 * n + (length orig - 2).
Proof.
  induction n as [|n IH]; cbn [respliced];
    rewrite length_app, length_drop, synthesized_length; simpl; lia.
Qed.

Lemma respliced_tail (orig : list json) (n : nat) :
  drop (9 + 7 * n) (respliced n orig) = drop 2 orig.
Proof.
  induction n as [|n IH]; cbn [respliced].
  - apply drop_app_length'. by rewrite synthesized_length.
  - rewrite drop_app_ge by (rewrite synthesized_length; simpl; lia).
    rewrite drop_drop, synthesized_length. simpl length.
    rewrite <- IH. f_equal. lia.
Qed.

Lemma respliced_head (orig : list json) (n : nat) :
  take 9 (respliced n orig) = synthesized.
Proof.
  destruct n; cbn [respliced]; apply take_app_length';
    by rewrite synthesized_length.
Qed.

End MoreRuns.

(** X3: a union that is null, a boolean or a number cannot be iterated
    over: the run raises [TypeError] and writes nothing. *)
Theorem scalar_union_is_fatal w doc u :
  disk w = Holds doc ->
  subscript_path doc union_path = Ok u ->
  u = JNull ∨ (exists b, u = JBool b) ∨ (exists n, u = JInt n)
  ∨ (exists bits, u = JFloat bits) ->
  main w = (Raise TypeError, w).
Proof.
  intros Hdisk Hread Hu.
  apply (main_iterate_raises w doc u TypeError Hdisk Hread).
  destruct Hu as [-> | [[b ->] | [[n ->] | [bits ->]]]]; reflexivity.
Qed.

Lemma scalar_union_is_fatal_witness :
  main {| disk := Holds (JObj [("items", JObj [("properties", JObj [("fields",
            JObj [("items", JObj [("anyOf", JNull)])])])])]);
          stdout := [] |}
  = (Raise TypeError,
     {| disk := Holds (JObj [("items", JObj [("properties", JObj [("fields",
            JObj [("items", JObj [("anyOf", JNull)])])])])]);
        stdout := [] |}).
Proof.
  apply (scalar_union_is_fatal _
           (JObj [("items", JObj [("properties", JObj [("fields",
              JObj [("items", JObj [("anyOf", JNull)])])])])])
           JNull).
  - reflexivity.
  - reflexivity.
  - by left.
Defined.

(** X4: the script does not check that the union is a list.  A union
    that is an object is iterated over by key: the run returns and the
    written union is the nine synthesized schemas followed by the keys
    of the object from the third on, as strings. *)
Theorem object_union_spliced_by_key w doc (d : dict) :
  disk w = Holds doc ->
  subscript_path doc union_path = Ok (JObj d) ->
  exists w',
    main w = (Ok tt, w') ∧
    union_on w' = Some (synthesized ++ map JStr (drop 2 (Dict.keys d))).
Proof.
  intros Hdisk Hread.
  destruct (main_returns w doc (JObj d) _ Hdisk Hread eq_refl)
    as (doc' & out & Hmain & Hassign).
  eexists. split; [exact Hmain|].
  apply union_on_holds.
  rewrite <- List.skipn_map.
  apply (subscript_assign _ _ _ _ _ Hassign).
Qed.

Lemma object_union_spliced_by_key_witness :
  exists w',
    main {| disk := Holds (JObj [("items", JObj [("properties", JObj [("fields",
              JObj [("items", JObj [("anyOf",
                JObj [("a", JNull); ("b", JNull); ("c", JInt 3)])])])])])]);
            stdout := [] |} = (Ok tt, w') ∧
    union_on w'
    = Some (synthesized
            ++ map JStr (drop 2 (Dict.keys [("a", JNull); ("b", JNull); ("c", JInt 3)]))).
Proof.
  apply (object_union_spliced_by_key _
           (JObj [("items", JObj [("properties", JObj [("fields",
              JObj [("items", JObj [("anyOf",
                JObj [("a", JNull); ("b", JNull); ("c", JInt 3)])])])])])])
           [("a", JNull); ("b", JNull); ("c", JInt 3)]).
  - reflexivity.
  - reflexivity.
Defined.

(** X5: whatever the union held, the written union starts with the
    synthesized schemas in catalog order: the text schemas at the
    positions of their descriptors in [text_fields], then the number
    schemas at the positions of theirs in [number_fields]. *)
Theorem catalog_order_in_union w doc u visited :
  disk w = Holds doc ->
  subscript_path doc union_path = Ok u ->
  iterate u = Ok visited ->
  exists w' new,
    main w = (Ok tt, w') ∧
    union_on w' = Some new ∧
    take (length text_fields + length number_fields) new = synthesized ∧
    (forall i fd, text_fields !! i = Some fd ->
                  new !! i = Some (text_schema fd)) ∧
    (forall i fd, number_fields !! i = Some fd ->
                  new !! (length text_fields + i) = Some (number_schema fd)).
Proof.
  intros Hdisk Hread Hiter.
  destruct (main_returns w doc u visited Hdisk Hread Hiter)
    as (doc' & out & Hmain & Hassign).
  exists {| disk := Holds doc'; stdout := out |}, (synthesized ++ drop 2 visited).
  split_and!; [done | | | |].
  - apply union_on_holds. apply (subscript_assign _ _ _ _ _ Hassign).
  - rewrite <- synthesized_length. apply take_app_length.
  - intros i fd Hi. unfold synthesized. rewrite <- app_assoc.
    rewrite lookup_app_l
      by (rewrite length_map; by apply lookup_lt_Some in Hi).
    by rewrite lookup_map, Hi.
  - intros i fd Hi. unfold synthesized. rewrite <- app_assoc.
    rewrite lookup_app_r by (rewrite length_map; lia).
    rewrite length_map.
    replace (length text_fields + i - length text_fields) with i by lia.
    rewrite lookup_app_l
      by (rewrite length_map; by apply lookup_lt_Some in Hi).
    by rewrite lookup_map, Hi.
Qed.

Lemma catalog_order_in_union_witness :
  exists w' new,
    main {| disk := Holds (spine [JNull; JNull; JStr "third"]); stdout := [] |}
    = (Ok tt, w') ∧
    union_on w' = Some new ∧
    take (length text_fields + length number_fields) new = synthesized ∧
    (forall i fd, text_fields !! i = Some fd ->
                  new !! i = Some (text_schema fd)) ∧
    (forall i fd, number_fields !! i = Some fd ->
                  new !! (length text_fields + i) = Some (number_schema fd)).
Proof.
  apply (catalog_order_in_union _ (spine [JNull; JNull; JStr "third"])
           (JArr [JNull; JNull; JStr "third"]) [JNull; JNull; JStr "third"]).
  - reflexivity.
  - reflexivity.
  - reflexivity.
Defined.

(** X6: the summary that a run prints agrees with what it wrote.  Every
    run that returns has made thirteen [print] calls, which put out
    fifteen lines, since two of the texts start with a line feed; the
    total that the second call reports is the number of members of the
    written union. *)
Theorem summary_matches_written_union w w' :
  main w = (Ok tt, w') ->
  exists new out,
    union_on w' = Some new ∧
    stdout w' = stdout w ++ out ∧
    out = summary (length new) ∧
    length out = 13 ∧
    output_lines out = 15 ∧
    out !! 1 = Some ("✓ Total field types in schema: " +:+ pretty (length new)).
Proof.
  intros Hmain.
  destruct (disk w) as [| |doc] eqn:Hdisk.
  - destruct (main_load_raises w (or_introl Hdisk)) as [e He]. congruence.
  - destruct (main_load_raises w (or_intror Hdisk)) as [e He]. congruence.
  - destruct (subscript_path doc union_path) as [u|e] eqn:Hread;
      [|pose proof (main_read_raises w doc e Hdisk Hread); congruence].
    destruct (iterate u) as [visited|e] eqn:Hiter;
      [|pose proof (main_iterate_raises w doc u e Hdisk Hread Hiter); congruence].
    destruct (main_returns_summary w doc u visited Hdisk Hread Hiter)
      as (doc' & Hmain' & Hassign).
    rewrite Hmain in Hmain'. injection Hmain' as Hw'.
    exists (synthesized ++ drop 2 visited),
           (summary (length (synthesized ++ drop 2 visited))).
    split_and!; [| by rewrite Hw' | done | done | | done].
    + rewrite Hw'. apply union_on_holds.
      apply (subscript_assign _ _ _ _ _ Hassign).
    + apply summary_output_lines.
Qed.

Lemma summary_matches_written_union_witness :
  exists new out,
    union_on (main {| disk := Holds (spine [JNull; JNull; JStr "third"]);
                      stdout := ["earlier output"] |}).2 = Some new ∧
    stdout (main {| disk := Holds (spine [JNull; JNull; JStr "third"]);
                    stdout := ["earlier output"] |}).2
    = ["earlier output"] ++ out ∧
    out = summary (length new) ∧
    length out = 13 ∧
    output_lines out = 15 ∧
    out !! 1 = Some ("✓ Total field types in schema: " +:+ pretty (length new)).
Proof.
  apply (summary_matches_written_union
           {| disk := Holds (spine [JNull; JNull; JStr "third"]);
              stdout := ["earlier output"] |}).
  vm_compute. reflexivity.
Defined.

(** X7: a run that returned can always be followed by another: the
    document it wrote has a list for its union, so the next run returns
    as well. *)
Theorem rerun_always_returns w w1 :
  main w = (Ok tt, w1) ->
  exists w2, main w1 = (Ok tt, w2).
Proof.
  intros Hmain.
  destruct (disk w) as [| |doc] eqn:Hdisk.
  - destruct (main_load_raises w (or_introl Hdisk)) as [e He]. congruence.
  - destruct (main_load_raises w (or_intror Hdisk)) as [e He]. congruence.
  - destruct (subscript_path doc union_path) as [u|e] eqn:Hread;
      [|pose proof (main_read_raises w doc e Hdisk Hread); congruence].
    destruct (iterate u) as [visited|e] eqn:Hiter;
      [|pose proof (main_iterate_raises w doc u e Hdisk Hread Hiter); congruence].
    destruct (main_returns w doc u visited Hdisk Hread Hiter)
      as (doc' & out & Hmain' & Hassign).
    assert (disk w1 = Holds doc') as Hdisk1
      by (rewrite Hmain in Hmain'; by injection Hmain' as ->).
    pose proof (subscript_assign _ _ _ _ _ Hassign) as Hunion.
    destruct (main_returns w1 doc' _ _ Hdisk1 Hunion eq_refl)
      as (doc2 & out2 & Hmain2 & _).
    eauto.
Qed.

Lemma rerun_always_returns_witness :
  exists w2,
    main (main {| disk := Holds (spine []); stdout := [] |}).2 = (Ok tt, w2).
Proof.
  apply (rerun_always_returns {| disk := Holds (spine []); stdout := [] |}).
  vm_compute. reflexivity.
Defined.

(** X8: every further run adds seven members.  After [n + 1] runs in a
    row on a document whose union is a list of length L, the union has
    9 + 7 n + (L - 2) members; it starts with the nine synthesized
    schemas and still ends with the original members from index 2 on. *)
Theorem repeated_runs w doc (orig : list json) (n : nat) :
  disk w = Holds doc ->
  subscript_path doc union_path = Ok (JArr orig) ->
  exists u,
    union_on (rerun (S n) w) = Some u ∧
    length u = 9 + 7 * n + (length orig - 2) ∧
    take 9 u = synthesized ∧
    drop (9 + 7 * n) u = drop 2 orig.
Proof.
  intros Hdisk Hread. exists (respliced n orig). split_and!.
  - by apply (rerun_union w doc).
  - apply respliced_length.
  - apply respliced_head.
  - apply respliced_tail.
Qed.

Lemma repeated_runs_witness :
  exists u,
    union_on (rerun 3 {| disk := Holds (spine [JNull; JNull; JStr "third"]);
                         stdout := [] |}) = Some u ∧
    length u = 9 + 7 * 2 + (3 - 2) ∧
    take 9 u = synthesized ∧
    drop (9 + 7 * 2) u = drop 2 [JNull; JNull; JStr "third"].
Proof.
  apply (repeated_runs
           {| disk := Holds (spine [JNull; JNull; JStr "third"]); stdout := [] |}
           (spine [JNull; JNull; JStr "third"]) [JNull; JNull; JStr "third"] 2).
  - reflexivity.
  - reflexivity.
Defined.

Section Merge.

(** Keys that the dict does not have yet, and that are pairwise
    distinct, are all new. *)
Lemma fresh_keys_disjoint (seen : list string) (other : dict) :
  Dict.wf other ->
  (forall k, k ∈ Dict.keys other -> k ∉ seen) ->
  Dict.fresh_keys seen other = Dict.keys other.
Proof.
  unfold Dict.wf. revert seen.
  induction other as [|[k v] other IH]; intros seen Hwf Hnew; simpl; [done|].
  simpl in Hwf. apply NoDup_cons in Hwf as [Hk Hwf].
  rewrite decide_False by (apply Hnew; simpl; apply list_elem_of_here).
  f_equal. apply IH; [done|].
  intros k' Hk'. apply not_elem_of_app. split.
  - apply Hnew. simpl. by apply list_elem_of_further.
  - intros Heq. apply list_elem_of_singleton in Heq. by subst k'.
Qed.

(** The top-level members of a number schema are where the literal has
    them, whatever the extras. *)
Lemma number_top_level_keys field_type title description
    (business_rules user_stories : list json) (additional_props : option dict) :
  exists m,
    create_number_field field_type title description business_rules
      user_stories additional_props = JObj m ∧
    Dict.keys m = ["title"; "description"; "type"; "properties"; "required";
                   "additionalProperties"; "x-business-rules"].
Proof.
  unfold create_number_field. destruct (truthy additional_props).
  - cbv zeta. eexists. split; [reflexivity|].
    unfold update_member.
    match goal with
    | |- context [Dict.get "properties" ?d] =>
        change (Dict.get "properties" d) with
          (Some (JObj (number_template field_type title)))
    end.
    cbv iota. rewrite DictFacts.keys_set_old; [reflexivity|].
    apply (bool_decide_unpack _). by vm_compute.
  - eexists. split; reflexivity.
Qed.

End Merge.

(** X9: extras that are new to the template are declared after it, in
    the order in which the descriptor lists them: the keys of the
    properties are the nine keys of the template followed by the keys of
    the extras. *)
Theorem extras_appended_in_order field_type title description
    (business_rules user_stories : list json) (extra : dict) :
  Dict.wf extra ->
  (forall k, k ∈ Dict.keys extra ->
             k ∉ Dict.keys (number_template field_type title)) ->
  exists p,
    properties_of (create_number_field field_type title description
                     business_rules user_stories (Some extra)) = Some p ∧
    Dict.keys p = Dict.keys (number_template field_type title) ++ Dict.keys extra.
Proof.
  intros Hwf Hnew. eexists. split; [apply number_properties_update|].
  rewrite DictFacts.keys_update. f_equal.
  by apply fresh_keys_disjoint.
Qed.

Lemma extras_appended_in_order_witness :
  exists p,
    properties_of (create_number_field "decimal" "Decimal Field" "" [] []
                     (Some [("precision", JObj [("type", JStr "integer")]);
                            ("currency", JObj [("type", JStr "string")])]))
    = Some p ∧
    Dict.keys p = Dict.keys (number_template "decimal" "Decimal Field")
                  ++ Dict.keys [("precision", JObj [("type", JStr "integer")]);
                                ("currency", JObj [("type", JStr "string")])].
Proof.
  apply (extras_appended_in_order "decimal" "Decimal Field" "" [] []
           [("precision", JObj [("type", JStr "integer")]);
            ("currency", JObj [("type", JStr "string")])]).
  - apply (bool_decide_unpack _). by vm_compute.
  - intros k Hk. apply (bool_decide_unpack _).
    repeat (apply elem_of_cons in Hk as [-> | Hk]); [by vm_compute ..|].
    by apply elem_of_nil in Hk.
Defined.

(** X10: the merge reads like a right-biased union.  A property that the
    extras name is declared with the schema the extras give for it; any
    other property is declared as the common template has it, or not at
    all. *)
Theorem merge_lookup field_type title description
    (business_rules user_stories : list json) (additional_props : option dict)
    (k : string) :
  Dict.wf (extras additional_props) ->
  property k (create_number_field field_type title description business_rules
                user_stories additional_props)
  = match Dict.get k (extras additional_props) with
    | Some v => Some v
    | None => Dict.get k (number_template field_type title)
    end.
Proof.
  intros Hwf. unfold property. rewrite number_properties_update.
  cbn [mbind option_bind].
  destruct (Dict.get k (extras additional_props)) as [v|] eqn:E.
  - by apply DictFacts.get_update.
  - by apply DictFacts.get_update_other.
Qed.

Lemma merge_lookup_witness :
  property "min" (create_number_field "integer" "Integer Field" "" [] []
                    (Some [("min", JObj [("type", JStr "integer")])]))
  = match Dict.get "min" (extras (Some [("min", JObj [("type", JStr "integer")])])) with
    | Some v => Some v
    | None => Dict.get "min" (number_template "integer" "Integer Field")
    end.
Proof.
  apply (merge_lookup "integer" "Integer Field" "" [] []
           (Some [("min", JObj [("type", JStr "integer")])]) "min").
  apply (bool_decide_unpack _). by vm_compute.
Defined.



(** X12: the shape of a number schema does not depend on the extras.
    Its top-level members are always [title], [description], [type],
    [properties], [required], [additionalProperties] and
    [x-business-rules], in this order; its properties start with [id],
    [name], [required], [unique], [indexed], [type], [min], [max],
    [default], in this order, and hold every key once, even when the
    extras repeat a key of the template. *)
Theorem number_schema_shape field_type title description
    (business_rules user_stories : list json) (additional_props : option dict) :
  exists m p,
    create_number_field field_type title description business_rules
      user_stories additional_props = JObj m ∧
    Dict.keys m = ["title"; "description"; "type"; "properties"; "required";
                   "additionalProperties"; "x-business-rules"] ∧
    Dict.get "properties" m = Some (JObj p) ∧
    take 9 (Dict.keys p)
    = ["id"; "name"; "required"; "unique"; "indexed"; "type"; "min"; "max";
       "default"] ∧
    Dict.wf p ∧
    9 <= length p.
Proof.
  destruct (number_top_level_keys field_type title description business_rules
              user_stories additional_props) as (m & Hm & Hkeys).
  pose proof (number_properties_update field_type title description
                business_rules user_stories additional_props) as Hp.
  rewrite Hm in Hp. unfold properties_of, member in Hp.
  destruct (Dict.get "properties" m) as [[| | | | | |p]|] eqn:E; try done.
  injection Hp as ->.
  eexists m, _. split_and!; [done | done | done | | |].
  - apply (DictFacts.keys_update_take (number_template field_type title)).
  - apply DictFacts.update_wf, number_template_wf.
  - rewrite <- (length_map fst). change (map fst ?d) with (Dict.keys d).
    rewrite DictFacts.keys_update, length_app, number_template_keys.
    simpl. lia.
Qed.

(** X13: when the path to the union breaks off, the error tells where.
    If the value reached so far is an object without the next key, the
    run raises [KeyError] for that key; if it is not an object at all,
    the run raises [TypeError].  Nothing is written in either case. *)
Theorem broken_path_error w doc (p : list string) (k : string)
    (rest : list string) (y : json) :
  disk w = Holds doc ->
  union_path = p ++ k :: rest ->
  subscript_path doc p = Ok y ->
  (forall d, y = JObj d -> Dict.get k d = None ->
             main w = (Raise (KeyError k), w)) ∧
  ((forall d, y <> JObj d) -> main w = (Raise TypeError, w)).
Proof.
  intros Hdisk Hpath Hp. split.
  - intros d -> Hget. apply (main_read_raises w doc _ Hdisk).
    rewrite Hpath, subscript_path_app, Hp. simpl. by rewrite Hget.
  - intros Hy. apply (main_read_raises w doc _ Hdisk).
    rewrite Hpath, subscript_path_app, Hp. simpl.
    destruct y as [| | | | | |d]; try done. by destruct (Hy d).
Qed.

Lemma broken_path_error_witness :
  (let w := {| disk := Holds (JObj [("items", JObj [("properties",
                  JObj [("columns", JNull)])])]); stdout := [] |} in
   main w = (Raise (KeyError "fields"), w)) ∧
  (let w := {| disk := Holds (JObj [("items", JArr [])]); stdout := [] |} in
   main w = (Raise TypeError, w)).
Proof.
  split; cbv zeta.
  - apply (proj1 (broken_path_error
                    {| disk := Holds (JObj [("items", JObj [("properties",
                         JObj [("columns", JNull)])])]); stdout := [] |}
                    (JObj [("items", JObj [("properties",
                         JObj [("columns", JNull)])])])
                    ["items"; "properties"] "fields" ["items"; "anyOf"]
                    (JObj [("columns", JNull)]) eq_refl eq_refl eq_refl)
                 [("columns", JNull)]); reflexivity.
  - apply (proj2 (broken_path_error
                    {| disk := Holds (JObj [("items", JArr [])]); stdout := [] |}
                    (JObj [("items", JArr [])])
                    ["items"] "properties" ["fields"; "items"; "anyOf"]
                    (JArr []) eq_refl eq_refl eq_refl)).
    intros d. discriminate.
Defined.

(** X14: the splice never removes a duplicate.  A member of the original
    union at index 2 or later that equals one of the synthesized schemas
    is kept all the same: the written union has it among the first nine
    members and again after them. *)
Theorem no_deduplication w doc (orig : list json) (j : nat) (x : json) :
  disk w = Holds doc ->
  subscript_path doc union_path = Ok (JArr orig) ->
  orig !! (2 + j) = Some x ->
  x ∈ synthesized ->
  exists w' new i,
    main w = (Ok tt, w') ∧
    union_on w' = Some new ∧
    i < 9 ∧
    new !! i = Some x ∧
    new !! (9 + j) = Some x.
Proof.
  intros Hdisk Hread Hj Hx.
  destruct (main_splices w doc orig Hdisk Hread)
    as (doc' & out & Hmain & Hunion & _).
  apply list_elem_of_lookup in Hx as [i Hi].
  assert (i < 9) as Hlt
    by (apply lookup_lt_Some in Hi; by rewrite synthesized_length in Hi).
  eexists _, _, i. split_and!; [exact Hmain | by apply union_on_holds | done | |].
  - by rewrite lookup_app_l by (rewrite synthesized_length; exact Hlt).
  - rewrite lookup_app_r by (rewrite synthesized_length; simpl; lia).
    rewrite synthesized_length. simpl length.
    replace (9 + j - (5 + 4)) with j by lia.
    by rewrite lookup_drop.
Qed.

Lemma no_deduplication_witness :
  exists w' new i,
    main {| disk := Holds (spine [JNull; JNull; default JNull (synthesized !! 3)]);
            stdout := [] |} = (Ok tt, w') ∧
    union_on w' = Some new ∧
    i < 9 ∧
    new !! i = Some (default JNull (synthesized !! 3)) ∧
    new !! (9 + 0) = Some (default JNull (synthesized !! 3)).
Proof.
  apply (no_deduplication _
           (spine [JNull; JNull; default JNull (synthesized !! 3)])
           [JNull; JNull; default JNull (synthesized !! 3)]).
  - reflexivity.
  - reflexivity.
  - reflexivity.
  - apply list_elem_of_lookup. exists 3. reflexivity.
Defined.
